(** * ftp-backuper: the walker, the archive naming and the retention pass

    A shallow embedding of [src/ftp_downloader.py]:
    [download_sftp_dir], [download_sftp_file], the naming scheme of
    [create_zip_from_folder], and [cleanup_old_backups] with its nested
    [file_key].

    Conventions of the embedding.
    - A Python [str] is a [list ascii], its characters code points below
      256; [lit] turns a Rocq literal into one.  Only ASCII case folding is
      modelled.
    - An instant (what [datetime.timestamp] and [os.path.getmtime] return as
      a binary64 number of seconds) is an exact integer number of
      microseconds since the Unix epoch, the resolution of [%f]; the
      rounding to binary64 is not modelled.
    - The local time zone is a zone of fixed offset, and [timestamp] of a
      naive datetime raises where CPython's conversion does in such a zone;
      daylight-saving rules are not modelled.
    - Python integers are [Z].
    - The console encodes every character of a [str]: [print] does not
      raise.
    - Library calls are modelled by what CPython does for them on Linux:
      [str] methods, [posixpath], [datetime.strptime]/[strftime] for the one
      format the program uses, [list.sort] (stable, also with
      [reverse=True]). *)

From Stdlib Require Import List Ascii String ZArith Bool Lia Permutation Sorted.
Import ListNotations.
Open Scope Z_scope.
Open Scope list_scope.

Set Implicit Arguments.

Definition str := list ascii.

Definition lit (s : string) : str := list_ascii_of_string s.

(** ** Python [str] methods used by the program *)
Module PyStr.

Definition code (c : ascii) : Z := Z.of_N (N_of_ascii c).

Fixpoint eqb (a b : str) : bool :=
  match a, b with
  | [], [] => true
  | x :: a', y :: b' => Ascii.eqb x y && eqb a' b'
  | _, _ => false
  end.

(** [s.startswith(p)] *)
Fixpoint startswith (s p : str) {struct p} : bool :=
  match p with
  | [] => true
  | c :: p' =>
      match s with
      | [] => false
      | d :: s' => Ascii.eqb d c && startswith s' p'
      end
  end.

(** [s.endswith(p)] *)
Definition endswith (s p : str) : bool := startswith (rev s) (rev p).

Definition lower_char (c : ascii) : ascii :=
  if (65 <=? code c) && (code c <=? 90)
  then ascii_of_N (N_of_ascii c + 32)
  else c.

(** [s.lower()] *)
Definition lower (s : str) : str := map lower_char s.

(** [s[n:]] for [n >= 0] *)
Definition slice_from (n : nat) (s : str) : str := skipn n s.

Fixpoint dropwhile (p : ascii -> bool) (s : str) : str :=
  match s with
  | [] => []
  | c :: s' => if p c then dropwhile p s' else s
  end.

(** [s.rstrip(c)] for a one-character argument *)
Definition rstrip (c : ascii) (s : str) : str :=
  rev (dropwhile (Ascii.eqb c) (rev s)).

(** First occurrence of [sep] in [s]: the text before it and the text after
    it. *)
Fixpoint split_first (sep s : str) : option (str * str) :=
  if startswith s sep then Some ([], skipn (List.length sep) s)
  else
    match s with
    | [] => None
    | c :: s' =>
        match split_first sep s' with
        | Some (b, a) => Some (c :: b, a)
        | None => None
        end
    end.

(** [sep in s] *)
Definition contains (sep s : str) : bool :=
  match split_first sep s with Some _ => true | None => false end.

(** [s.rsplit(sep, 1)[0]]: the text before the last occurrence of [sep], the
    whole of [s] when [sep] does not occur. *)
Definition rsplit1_head (sep s : str) : str :=
  match split_first (rev sep) (rev s) with
  | Some (_, a) => rev a
  | None => s
  end.

(** Truthiness of a [str]: non-empty. *)
Definition truthy (s : str) : bool :=
  match s with [] => false | _ => true end.

End PyStr.

(** ** [posixpath] *)
Module PosixPath.

Definition sep : ascii := "/"%char.

(** [os.path.join(a, b)] *)
Definition join (a b : str) : str :=
  if PyStr.startswith b [sep] then b
  else if negb (PyStr.truthy a) || PyStr.endswith a [sep] then a ++ b
  else a ++ sep :: b.

Definition all_sep (s : str) : bool := forallb (Ascii.eqb sep) s.

(** [os.path.dirname(p)]: the text up to and including the last ['/'], with
    trailing slashes removed unless it consists of slashes only. *)
Definition dirname (p : str) : str :=
  let head := rev (PyStr.dropwhile (fun c => negb (Ascii.eqb sep c)) (rev p)) in
  if PyStr.truthy head && negb (all_sep head) then PyStr.rstrip sep head
  else head.

(** [p.split('/')] *)
Fixpoint split (p : str) : list str :=
  match p with
  | [] => [[]]
  | c :: p' =>
      if Ascii.eqb c sep then [] :: split p'
      else
        match split p' with
        | [] => [[c]]
        | w :: ws => (c :: w) :: ws
        end
  end.

(** Where an absolute path leads: the stack of directory names left after
    the empty and ["."] components are dropped and each [".."] has removed
    the name before it (the parent of the root is the root).  The stack is
    kept innermost first. *)
Definition resolve_step (stack : list str) (comp : str) : list str :=
  if PyStr.eqb comp [] || PyStr.eqb comp (lit ".") then stack
  else if PyStr.eqb comp (lit "..") then tl stack
  else comp :: stack.

Definition resolve (p : str) : list str :=
  rev (fold_left resolve_step (split p) []).

Fixpoint is_prefix (a b : list str) : bool :=
  match a, b with
  | [], _ => true
  | x :: a', y :: b' => PyStr.eqb x y && is_prefix a' b'
  | _ :: _, [] => false
  end.

(** The name holds no ['/']. *)
Definition plain (name : str) : bool :=
  forallb (fun c => negb (Ascii.eqb c sep)) name.

(** The absolute path [p] names [root] or something below it. *)
Definition is_under (root p : str) : bool :=
  is_prefix (resolve root) (resolve p).

End PosixPath.

(** ** [datetime]: the calendar, and [strptime]/[strftime] for the format
    ['%Y-%m-%dT%H-%M-%S.%fZ'] *)
Module Datetime.

Record datetime := mk_datetime {
  year : Z; month : Z; day : Z;
  hour : Z; minute : Z; second : Z; microsecond : Z
}.

Definition is_leap (y : Z) : bool :=
  (y mod 4 =? 0) && (negb (y mod 100 =? 0) || (y mod 400 =? 0)).

Definition days_in_month (y m : Z) : Z :=
  if m =? 2 then (if is_leap y then 29 else 28)
  else if (m =? 4) || (m =? 6) || (m =? 9) || (m =? 11) then 30
  else 31.

(** The checks of the [datetime] constructor. *)
Definition valid (dt : datetime) : bool :=
  (1 <=? year dt) && (year dt <=? 9999) &&
  (1 <=? month dt) && (month dt <=? 12) &&
  (1 <=? day dt) && (day dt <=? days_in_month (year dt) (month dt)) &&
  (0 <=? hour dt) && (hour dt <=? 23) &&
  (0 <=? minute dt) && (minute dt <=? 59) &&
  (0 <=? second dt) && (second dt <=? 59) &&
  (0 <=? microsecond dt) && (microsecond dt <=? 999999).

Definition days_before_year (y : Z) : Z :=
  let p := y - 1 in p * 365 + p / 4 - p / 100 + p / 400.

Definition days_before_month (y m : Z) : Z :=
  nth (Z.to_nat m) [0; 0; 31; 59; 90; 120; 151; 181; 212; 243; 273; 304; 334] 0
  + (if (2 <? m) && is_leap y then 1 else 0).

(** Proleptic Gregorian ordinal, 0001-01-01 being day 1. *)
Definition ymd2ord (y m d : Z) : Z :=
  days_before_year y + days_before_month y m + d.

(** Microseconds between 1970-01-01T00:00:00 and the fields of [dt], both
    read in the same time zone. *)
Definition micros_since_epoch (dt : datetime) : Z :=
  ((ymd2ord (year dt) (month dt) (day dt) - 719163) * 86400
   + hour dt * 3600 + minute dt * 60 + second dt) * 1000000
  + microsecond dt.

(** [dt.timestamp()] of an aware datetime in UTC: the instant itself. *)
Definition timestamp_utc (dt : datetime) : Z := micros_since_epoch dt.

(** Seconds from the midnight before 0001-01-01 to the fields of [dt], as
    [utc_to_seconds] counts them. *)
Definition seconds_of (dt : datetime) : Z :=
  ((ymd2ord (year dt) (month dt) (day dt) * 24 + hour dt) * 60
   + minute dt) * 60 + second dt.

(** The second lies in a year from 1 to 9999; [utc_to_seconds] raises
    [ValueError] on any other. *)
Definition in_years (s : Z) : bool :=
  (86400 <=? s) && (s <? 3652060 * 86400).

(** [dt.timestamp()] of a naive datetime: the fields are read as local time.
    [utcoffset] is the offset of the local zone, in seconds east of UTC
    (a zone of fixed offset).  The conversion ([local_to_seconds]) asks for
    the local time at the instant with these fields in UTC, and again one
    day before its answer; it raises when either lies outside the years 1
    to 9999, which [None] stands for. *)
Definition timestamp_naive (utcoffset : Z) (dt : datetime) : option Z :=
  let t := seconds_of dt in
  if in_years (t + utcoffset) && in_years (t - 86400)
  then Some (micros_since_epoch dt - utcoffset * 1000000)
  else None.

(** *** Parsing *)

Definition digit_val (c : ascii) : option Z :=
  let n := PyStr.code c in
  if (48 <=? n) && (n <=? 57) then Some (n - 48) else None.

Definition is_digit (c : ascii) : bool :=
  match digit_val c with Some _ => true | None => false end.

Fixpoint digits_acc (acc : Z) (s : str) : option Z :=
  match s with
  | [] => Some acc
  | c :: s' =>
      match digit_val c with
      | Some d => digits_acc (acc * 10 + d) s'
      | None => None
      end
  end.

(** [int(s)] of a non-empty run of decimal digits. *)
Definition digits_val (s : str) : option Z :=
  match s with
  | [] => None
  | _ => digits_acc 0 s
  end.

(** A number of [lo..hi] digits whose value lies in [vlo..vhi]. *)
Definition ranged (lo hi : nat) (vlo vhi : Z) (s : str) : option Z :=
  match digits_val s with
  | Some v =>
      if (lo <=? List.length s)%nat && (List.length s <=? hi)%nat
         && (vlo <=? v) && (v <=? vhi)
      then Some v else None
  | None => None
  end.

(** The regular expressions [_strptime] compiles the directives to.
    - [%Y]: [\d\d\d\d]
    - [%m]: [1[0-2]|0[1-9]|[1-9]]
    - [%d]: [3[0-1]|[1-2]\d|0[1-9]|[1-9]| [1-9]]
    - [%H]: [2[0-3]|[0-1]\d|\d]
    - [%M]: [[0-5]\d|\d]
    - [%S]: [6[0-1]|[0-5]\d|\d]
    - [%f]: [[0-9]{1,6}], read as if padded with zeros on the right. *)
Definition re_Y (s : str) : option Z := ranged 4 4 0 9999 s.
Definition re_m (s : str) : option Z := ranged 1 2 1 12 s.
Definition re_d (s : str) : option Z :=
  match s with
  | [sp; c] =>
      if Ascii.eqb sp " "%char then ranged 1 1 1 9 [c] else ranged 1 2 1 31 s
  | _ => ranged 1 2 1 31 s
  end.
Definition re_H (s : str) : option Z := ranged 1 2 0 23 s.
Definition re_M (s : str) : option Z := ranged 1 2 0 59 s.
Definition re_S (s : str) : option Z := ranged 1 2 0 61 s.
Definition re_f (s : str) : option Z :=
  match ranged 1 6 0 999999 s with
  | Some v => Some (v * 10 ^ (6 - Z.of_nat (List.length s)))
  | None => None
  end.

(** The characters a directive can match; the literals of the format are
    none of them, so a directive matches a whole run of them or fails. *)
Definition is_field_char (c : ascii) : bool :=
  is_digit c || Ascii.eqb c " "%char.

Fixpoint span (p : ascii -> bool) (s : str) : str * str :=
  match s with
  | [] => ([], [])
  | c :: s' =>
      if p c then let (a, b) := span p s' in (c :: a, b) else ([], s)
  end.

(** A literal of the format; the expression is compiled with
    [re.IGNORECASE]. *)
Definition expect (c : ascii) (s : str) : option str :=
  match s with
  | d :: s' =>
      if Ascii.eqb (PyStr.lower_char d) (PyStr.lower_char c) then Some s'
      else None
  | [] => None
  end.

Definition bind {A B} (o : option A) (k : A -> option B) : option B :=
  match o with Some a => k a | None => None end.

Notation "x <- o ;; k" := (bind o (fun x => k))
  (at level 61, o at next level, right associativity).
Notation "' p <- o ;; k" := (bind o (fun x => let 'p := x in k))
  (at level 61, p pattern, o at next level, right associativity).

Definition field (re : str -> option Z) (s : str) : option (Z * str) :=
  let (run, rest) := span is_field_char s in
  v <- re run ;; Some (v, rest).

(** [datetime.strptime(s, '%Y-%m-%dT%H-%M-%S.%fZ')]; [None] stands for the
    [ValueError] of a mismatch, of unconverted data, or of fields the
    [datetime] constructor refuses. *)
Definition strptime (s : str) : option datetime :=
  '(y, s) <- field re_Y s ;;
  s <- expect "-" s ;;
  '(mo, s) <- field re_m s ;;
  s <- expect "-" s ;;
  '(d, s) <- field re_d s ;;
  s <- expect "T" s ;;
  '(h, s) <- field re_H s ;;
  s <- expect "-" s ;;
  '(mi, s) <- field re_M s ;;
  s <- expect "-" s ;;
  '(se, s) <- field re_S s ;;
  s <- expect "." s ;;
  '(f, s) <- field re_f s ;;
  s <- expect "Z" s ;;
  match s with
  | [] =>
      let dt := mk_datetime y mo d h mi se f in
      if valid dt then Some dt else None
  | _ :: _ => None
  end.

(** The string is not empty and its last character is [Z] or [z]. *)
Definition ends_in_z (s : str) : Prop :=
  s <> [] /\ PyStr.lower_char (last s " "%char) = "z"%char.

(** *** Formatting *)

Definition digit_char (d : Z) : ascii := ascii_of_N (Z.to_N (48 + d)).

(** A number as [w] decimal digits, padded with zeros on the left. *)
Fixpoint zfill (w : nat) (n : Z) : str :=
  match w with
  | O => []
  | S w' => zfill w' (n / 10) ++ [digit_char (n mod 10)]
  end.

(** The number of digits of a year. *)
Definition year_digits (y : Z) : nat :=
  if y <? 10 then 1 else if y <? 100 then 2 else if y <? 1000 then 3 else 4.

(** [dt.strftime('%Y-%m-%dT%H-%M-%S.%fZ')]; the C library writes [%Y] as the
    year in decimal without padding, the other fields padded with zeros. *)
Definition strftime (dt : datetime) : str :=
  zfill (year_digits (year dt)) (year dt) ++ lit "-"
  ++ zfill 2 (month dt) ++ lit "-"
  ++ zfill 2 (day dt) ++ lit "T" ++ zfill 2 (hour dt) ++ lit "-"
  ++ zfill 2 (minute dt) ++ lit "-" ++ zfill 2 (second dt) ++ lit "."
  ++ zfill 6 (microsecond dt) ++ lit "Z".

End Datetime.

(** ** The remote tree walker *)
Module Walker.

(** An item of [sftp.listdir_attr]. *)
Record entry := mk_entry { filename : str; st_mode : Z }.

(** [stat.S_ISDIR]: the file-type bits are those of a directory. *)
Definition S_ISDIR (mode : Z) : bool := Z.land mode 61440 =? 16384.

(** The remote session: a listing is [None] when [listdir_attr] raises
    [IOError]; [get_ok] tells whether [sftp.get] succeeds. *)
Record sftp_client := mk_sftp {
  listdir_attr : str -> option (list entry);
  get_ok : str -> str -> bool
}.

(** What the walker does to the local file system and the console. *)
Inductive action :=
| Makedirs (path : str)
| Print_downloading (remote_path : str)
| Get (remote_path local_path : str).

Inductive error :=
| Failed_to_list (remote_dir : str)
| Get_failed (remote_path : str)
| RecursionError.

(** The actions performed, and the exception that ended them if any. *)
Definition result := (list action * option error)%type.

Definition download_sftp_file (sftp : sftp_client) (remote_path local_path : str)
  : result :=
  ([Makedirs (PosixPath.dirname local_path);
    Print_downloading remote_path;
    Get remote_path local_path],
   if get_ok sftp remote_path local_path then None
   else Some (Get_failed remote_path)).

(** A [for] loop whose body may raise. *)
Fixpoint for_each {A} (body : A -> result) (l : list A) : result :=
  match l with
  | [] => ([], None)
  | x :: l' =>
      match body x with
      | (t, Some e) => (t, Some e)
      | (t, None) => let (t', r) := for_each body l' in (t ++ t', r)
      end
  end.

(** [name in ('.', '..')] *)
Definition is_dot_name (name : str) : bool :=
  PyStr.eqb name (lit ".") || PyStr.eqb name (lit "..").

(** The body of the loop over the entries; [recur] is the recursive call. *)
Definition visit (recur : str -> str -> result) (sftp : sftp_client)
    (remote_dir local_dir : str) (e : entry) : result :=
  let name := filename e in
  if is_dot_name name then ([], None)
  else
    let remote_path := PyStr.rstrip "/" remote_dir ++ lit "/" ++ name in
    let local_path := PosixPath.join local_dir name in
    if S_ISDIR (st_mode e) then recur remote_path local_path
    else download_sftp_file sftp remote_path local_path.

(** [depth] is the number of nested calls the interpreter still allows. *)
Fixpoint download_sftp_dir (depth : nat) (sftp : sftp_client)
    (remote_dir local_dir : str) : result :=
  match depth with
  | O => ([], Some RecursionError)
  | S depth' =>
      match listdir_attr sftp remote_dir with
      | None => ([Makedirs local_dir], Some (Failed_to_list remote_dir))
      | Some entries =>
          let (t, r) :=
            for_each (visit (download_sftp_dir depth' sftp) sftp
                            remote_dir local_dir) entries in
          (Makedirs local_dir :: t, r)
      end
  end.

(** The local paths an action touches. *)
Definition local_paths (a : action) : list str :=
  match a with
  | Makedirs p => [p]
  | Print_downloading _ => []
  | Get _ p => [p]
  end.

(** The session with every ["."] and [".."] entry removed from every
    listing. *)
Definition without_dot_entries (sftp : sftp_client) : sftp_client :=
  mk_sftp
    (fun dir =>
       option_map (filter (fun e => negb (is_dot_name (filename e))))
                  (listdir_attr sftp dir))
    (get_ok sftp).

End Walker.

(** ** The archiver's naming scheme *)
Module Archiver.

(** The file name [create_zip_from_folder] gives the archive; [now] is the
    value of [datetime.utcnow()]. *)
Definition zip_name (now : Datetime.datetime) (zip_prefix : str) : str :=
  let timestamp := Datetime.strftime now in
  let prefix := if PyStr.truthy zip_prefix then zip_prefix ++ lit "_" else [] in
  prefix ++ timestamp ++ lit ".zip".

Definition zip_path (now : Datetime.datetime) (output_dir zip_prefix : str)
  : str :=
  PosixPath.join output_dir (zip_name now zip_prefix).

End Archiver.

(** ** The retention manager *)
Module Retention.

(** What the program can observe of a file of the output directory:
    [mtime] is [None] when [os.path.getmtime] raises on it (a dangling
    symbolic link, say); [removable] tells whether [os.remove] succeeds. *)
Record file_info := mk_info { mtime : option Z; removable : bool }.

(** The output directory: absent, present but not listable, or its entries
    in the order [os.listdir] reports them. *)
Inductive directory :=
| Missing
| Unreadable
| Listing (entries : list (str * file_info)).

Inductive listdir_result :=
| Names (names : list str)
| FileNotFoundError
| OtherOSError.

Definition listdir (d : directory) : listdir_result :=
  match d with
  | Missing => FileNotFoundError
  | Unreadable => OtherOSError
  | Listing es => Names (map fst es)
  end.

Definition entries_of (d : directory) : list (str * file_info) :=
  match d with Listing es => es | _ => [] end.

(** The entry of the directory that [path] names. *)
Definition names_path (output_dir path : str) (e : str * file_info) : bool :=
  PyStr.eqb (PosixPath.join output_dir (fst e)) path.

(** [os.path.getmtime(path)]; [None] when it raises. *)
Definition getmtime (d : directory) (output_dir path : str) : option Z :=
  match find (names_path output_dir path) (entries_of d) with
  | Some e => mtime (snd e)
  | None => None
  end.

Fixpoint remove_first (p : str * file_info -> bool)
    (es : list (str * file_info)) : list (str * file_info) :=
  match es with
  | [] => []
  | e :: es' => if p e then es' else e :: remove_first p es'
  end.

(** [os.remove(path)]: the directory without the file, or [None] when it
    raises. *)
Definition os_remove (d : directory) (output_dir path : str)
  : option directory :=
  match find (names_path output_dir path) (entries_of d) with
  | Some e =>
      if removable (snd e)
      then Some (Listing (remove_first (names_path output_dir path)
                                       (entries_of d)))
      else None
  | None => None
  end.

Inductive event :=
| Print_removing (path : str)
| Os_remove (path : str) (ok : bool)
| Print_failed (path : str).

Inductive exit := Returns | Raises.

Record outcome := mk_outcome {
  out_exit : exit;
  out_dir : directory;
  out_trace : list event
}.

(** The test of the list comprehension. *)
Definition is_candidate (prefix f : str) : bool :=
  PyStr.endswith (PyStr.lower f) (lit ".zip")
  && (if PyStr.truthy prefix then PyStr.startswith f prefix else true).

(** The text [file_key] hands to [strptime]. *)
Definition stamp_text (prefix fname : str) : str :=
  let name :=
    if PyStr.truthy prefix && PyStr.startswith fname (prefix ++ lit "_")
    then PyStr.slice_from (List.length prefix + 1) fname
    else if PyStr.truthy prefix && PyStr.startswith fname prefix
    then PyStr.slice_from (List.length prefix) fname
    else fname in
  PyStr.rsplit1_head (lit ".zip") name.

(** The fallback of [file_key]: the modification time, [0] without one. *)
Definition mtime_or_zero (d : directory) (output_dir fname : str) : Z :=
  let path := PosixPath.join output_dir fname in
  match getmtime d output_dir path with
  | Some t => t
  | None => 0
  end.

(** The nested [file_key]; [utcoffset] is the offset of the local zone.
    The [try] covers both [strptime] and [timestamp]: when either raises,
    the [except] branch runs. *)
Definition file_key (utcoffset : Z) (d : directory) (output_dir prefix : str)
    (fname : str) : Z :=
  match Datetime.strptime (stamp_text prefix fname) with
  | Some dt =>
      match Datetime.timestamp_naive utcoffset dt with
      | Some t => t
      | None => mtime_or_zero d output_dir fname
      end
  | None => mtime_or_zero d output_dir fname
  end.

(** *** [list.sort(key=..., reverse=...)] *)

Fixpoint insert_asc {A} (key : A -> Z) (x : A) (l : list A) : list A :=
  match l with
  | [] => [x]
  | y :: l' => if key x <=? key y then x :: l else y :: insert_asc key x l'
  end.

(** The stable ascending sort. *)
Definition sort_asc {A} (key : A -> Z) (l : list A) : list A :=
  fold_right (insert_asc key) [] l.

(** With [reverse=True] the list is reversed, sorted and reversed again, so
    that equal keys keep their original order. *)
Definition list_sort {A} (key : A -> Z) (reverse : bool) (l : list A)
  : list A :=
  if reverse then rev (sort_asc key (rev l)) else sort_asc key l.

(** Oldest first, and newest first. *)
Definition ascending {A} (key : A -> Z) (a b : A) : Prop := key a <= key b.
Definition descending {A} (key : A -> Z) (a b : A) : Prop := key b <= key a.

(** [l[k:]] *)
Definition slice_from {A} (k : Z) (l : list A) : list A :=
  if k <? 0 then skipn (List.length l - Z.to_nat (- k)) l
  else skipn (Z.to_nat k) l.

(** [l[:k]], the complement of [l[k:]] *)
Definition slice_to {A} (k : Z) (l : list A) : list A :=
  if k <? 0 then firstn (List.length l - Z.to_nat (- k)) l
  else firstn (Z.to_nat k) l.

(** The loop over [to_delete]. *)
Fixpoint remove_loop (d : directory) (output_dir : str) (to_delete : list str)
  : directory * list event :=
  match to_delete with
  | [] => (d, [])
  | fname :: rest =>
      let path := PosixPath.join output_dir fname in
      match os_remove d output_dir path with
      | Some d' =>
          let (d'', t) := remove_loop d' output_dir rest in
          (d'', Print_removing path :: Os_remove path true :: t)
      | None =>
          let (d'', t) := remove_loop d output_dir rest in
          (d'', Print_removing path :: Os_remove path false
                :: Print_failed path :: t)
      end
  end.

(** The candidates in the order of the listing. *)
Definition candidates (prefix : str) (names : list str) : list str :=
  filter (is_candidate prefix) names.

(** The candidates, newest first. *)
Definition ranked (utcoffset : Z) (d : directory) (output_dir prefix : str)
    (names : list str) : list str :=
  list_sort (file_key utcoffset d output_dir prefix) true
            (candidates prefix names).

Definition cleanup_old_backups (utcoffset : Z) (d : directory)
    (output_dir prefix : str) (keep : Z) : outcome :=
  if keep <=? 0 then mk_outcome Returns d []
  else
    match listdir d with
    | FileNotFoundError => mk_outcome Returns d []
    | OtherOSError => mk_outcome Raises d []
    | Names names =>
        let files := ranked utcoffset d output_dir prefix names in
        let to_delete := slice_from keep files in
        let (d', t) := remove_loop d output_dir to_delete in
        mk_outcome Returns d' t
    end.

(** The paths [os.remove] was called on, in order. *)
Fixpoint attempts (t : list event) : list str :=
  match t with
  | [] => []
  | Os_remove p _ :: t' => p :: attempts t'
  | _ :: t' => attempts t'
  end.

(** The paths reported as not removed, in order. *)
Fixpoint reported (t : list event) : list str :=
  match t with
  | [] => []
  | Print_failed p :: t' => p :: reported t'
  | _ :: t' => reported t'
  end.

(** The paths on which [os.remove] raised, in order. *)
Fixpoint failures (t : list event) : list str :=
  match t with
  | [] => []
  | Os_remove p false :: t' => p :: failures t'
  | _ :: t' => failures t'
  end.

End Retention.

Import PyStr PosixPath Datetime Walker Archiver Retention.

(** ** The sort key, step by step as the specification words it *)
Module Spec.

(** Step a: if the name starts with the prefix followed by an underscore,
    strip that; else if it starts with the prefix, strip that; a no-op when
    the prefix is empty. *)
Definition spec_strip_prefix (prefix name : str) : str :=
  match prefix with
  | [] => name
  | _ =>
      if startswith name (prefix ++ lit "_")
      then skipn (List.length (prefix ++ lit "_")) name
      else if startswith name prefix then skipn (List.length prefix) name
      else name
  end.

(** Step b: strip the trailing archive-extension suffix. *)
Definition spec_strip_suffix (name : str) : str :=
  if endswith name (lit ".zip")
  then firstn (List.length name - List.length (lit ".zip")) name
  else name.

(** The string of step c, the one parsed against the timestamp format. *)
Definition spec_stamp_text (prefix fname : str) : str :=
  spec_strip_suffix (spec_strip_prefix prefix fname).

End Spec.

(** ** Concrete directories, names and sessions *)
Module Scenario.

Definition out : str := lit "/backups".

Definition january : str := lit "a_2024-01-01T00-00-00.000000Z.zip".
Definition june : str := lit "a_2024-06-01T00-00-00.000000Z.zip".
Definition garbage : str := lit "a_garbage.zip".

(** The directory of the specification's scenario: two stamped archives and
    one whose name is no stamp, last modified in 2023. *)
Definition three_archives : list (str * file_info) :=
  [ (january, mk_info (Some 1704067205000000) true);
    (june, mk_info (Some 1717200005000000) true);
    (garbage, mk_info (Some 1690000000000000) true) ].

Definition stamped_1960 : str := lit "a_1960-01-01T00-00-00.000000Z.zip".
Definition lost : str := lit "a_lost.zip".

(** An archive stamped 1960 next to a dangling link, which has no
    modification time. *)
Definition old_and_lost : list (str * file_info) :=
  [ (stamped_1960, mk_info (Some 1704067205000000) true);
    (lost, mk_info None true) ].

Definition double_extension : str :=
  lit "a_2024-06-01T00-00-00.000000Z.zip.ZIP".
Definition mixed_extension : str :=
  lit "a_2024-01-01T00-00-00.000000Z.zip.Zip".

Definition with_double_extension : list (str * file_info) :=
  [ (double_extension, mk_info (Some 1500000000000000) true) ].
Definition with_mixed_extension : list (str * file_info) :=
  [ (mixed_extension, mk_info (Some 1500000000000000) true) ].

Definition first_day : str := lit "a_0001-01-01T00-00-00.000000Z.zip".
Definition last_evening : str := lit "a_9999-12-31T23-30-00.000000Z.zip".

(** Two archives stamped at the ends of the calendar: the first day, and
    half an hour before the end of the last. *)
Definition ends_of_the_calendar : list (str * file_info) :=
  [ (first_day, mk_info (Some 1500000000000000) true);
    (last_evening, mk_info None true) ].

Definition locked : str := lit "a_2023-12-01T00-00-00.000000Z.zip".

(** The directory of the scenario with an older archive that cannot be
    removed. *)
Definition with_locked_archive : list (str * file_info) :=
  [ (january, mk_info (Some 1704067205000000) true);
    (locked, mk_info (Some 1701388805000000) false);
    (june, mk_info (Some 1717200005000000) true);
    (garbage, mk_info (Some 1690000000000000) true) ].

(** 2024-01-01T00:00:00 UTC, the clock when an archive is made. *)
Definition new_year : datetime := mk_datetime 2024 1 1 0 0 0 0.

Definition manual : str := lit "a_manual.zip".

(** The archive made at [new_year], next to a file of no stamp that was
    last modified half an hour earlier. *)
Definition fresh_and_manual : list (str * file_info) :=
  [ (zip_name new_year (lit "a"), mk_info (Some 1704067200000000) true);
    (manual, mk_info (Some 1704065400000000) true) ].

Definition target : str := lit "/tmp/sftp_download_x/data".

(** A server whose listing of [/data] names a file by a path with parent
    directories in it and another by an absolute path. *)
Definition hostile : sftp_client :=
  mk_sftp
    (fun dir =>
       if PyStr.eqb dir (lit "/data")
       then Some [ mk_entry (lit "../../evil.sh") 33188;
                   mk_entry (lit "/etc/cron.d/job") 33188 ]
       else None)
    (fun _ _ => true).

End Scenario.

(** ** What the retention pass leaves behind *)
Module Survivors.

(** [f in names] *)
Definition mem (f : str) (names : list str) : bool :=
  existsb (PyStr.eqb f) names.

(** The file is named in [to_delete] and [os.remove] succeeds on it. *)
Definition goes (to_delete : list str) (e : str * file_info) : bool :=
  mem (fst e) to_delete && removable (snd e).

(** The entries that stay when the files named in [to_delete] are removed
    as far as they can be. *)
Definition survivors (to_delete : list str) (es : list (str * file_info))
  : list (str * file_info) :=
  filter (fun e => negb (goes to_delete e)) es.

(** Every file name of the directory is free of ['/'], as the names
    [os.listdir] returns are. *)
Definition plain_names (es : list (str * file_info)) : Prop :=
  Forall (fun e => plain (fst e) = true) es.

End Survivors.

Import Survivors.

(** ** How a walk ends *)
Module WalkEnd.



(** Every fetch of the trace succeeded. *)
Definition all_fetched (sftp : sftp_client) (t : list action) : Prop :=
  forall remote_path local_path,
    In (Get remote_path local_path) t ->
    get_ok sftp remote_path local_path = true.

End WalkEnd.

Import WalkEnd.

(** ** Servers whose names are file names *)
Module Benign.

(** A name a file system would give a file: not empty and free of ['/'];
    ["."] and [".."] are left to the walker's own test. *)
Definition file_name (name : str) : Prop :=
  is_dot_name name = true \/ (plain name = true /\ name <> []).

(** Every name of every listing is such a name. *)
Definition benign (sftp : sftp_client) : Prop :=
  forall dir entries e,
    listdir_attr sftp dir = Some entries -> In e entries ->
    file_name (filename e).

(** Every local path of the trace lies under [root]. *)
Definition stays_under (root : str) (t : list action) : Prop :=
  forall a p, In a t -> In p (local_paths a) -> is_under root p = true.

(** What the walker does for one entry that is not ["."] or [".."]. *)
Definition mirrored (remote_dir local_dir : str) (e : entry) : action :=
  if S_ISDIR (st_mode e)
  then Makedirs (join local_dir (filename e))
  else Get (PyStr.rstrip "/" remote_dir ++ lit "/" ++ filename e)
           (join local_dir (filename e)).

End Benign.

Import Benign.

(** ** The local target of [main] *)
Module Target.

Fixpoint takewhile (p : ascii -> bool) (s : str) : str :=
  match s with
  | [] => []
  | c :: s' => if p c then c :: takewhile p s' else []
  end.

(** [os.path.basename(p)]: the text after the last ['/']. *)
Definition basename (p : str) : str :=
  rev (takewhile (fun c => negb (Ascii.eqb sep c)) (rev p)).

(** [s.strip(c)] for a one-character argument *)
Definition strip (c : ascii) (s : str) : str :=
  PyStr.dropwhile (Ascii.eqb c) (PyStr.rstrip c s).

(** [s.replace(a, b)] for one-character arguments *)
Definition replace (a b : ascii) (s : str) : str :=
  map (fun c => if Ascii.eqb c a then b else c) s.

(** [a or b] on strings *)
Definition or_else (a b : str) : str := if PyStr.truthy a then a else b.

(** The [basename] of [main]:
    [os.path.basename(remote_dir.rstrip('/')) or
     remote_dir.strip('/').replace('/', '_')]. *)
Definition target_name (remote_dir : str) : str :=
  or_else (basename (PyStr.rstrip "/" remote_dir))
          (replace "/" "_" (strip "/" remote_dir)).

(** [local_target] *)
Definition local_target (tmpdir remote_dir : str) : str :=
  join tmpdir (target_name remote_dir).

End Target.

Import Target.

(** ** The entries of the archive *)
Module ZipEntries.

(** A local directory: the names of its files, and its subdirectories by
    name, each in the order [os.scandir] reports them. *)
Inductive tree := Node (files : list str) (dirs : forest)
with forest := No_more | Subdir (name : str) (sub : tree) (rest : forest).

Fixpoint names_of (ds : forest) : list str :=
  match ds with
  | No_more => []
  | Subdir name _ rest => name :: names_of rest
  end.

(** [os.walk(top)], top-down: for every directory its path, the names of
    its subdirectories and the names of its files. *)
Fixpoint os_walk (top : str) (t : tree)
  : list (str * list str * list str) :=
  match t with
  | Node files dirs => (top, names_of dirs, files) :: walk_each top dirs
  end
with walk_each (top : str) (ds : forest)
  : list (str * list str * list str) :=
  match ds with
  | No_more => []
  | Subdir name sub rest => os_walk (join top name) sub ++ walk_each top rest
  end.

(** [os.path.isabs] *)
Definition isabs (p : str) : bool := startswith p [sep].

(** The loop of [os.path.normpath] over the components, the list kept
    innermost first; [rooted] tells whether the path starts with a
    slash. *)
Definition norm_step (rooted : bool) (new_comps : list str) (comp : str)
  : list str :=
  if PyStr.eqb comp [] || PyStr.eqb comp (lit ".") then new_comps
  else if negb (PyStr.eqb comp (lit ".."))
          || (negb rooted && match new_comps with [] => true | _ => false end)
          || match new_comps with
             | top :: _ => PyStr.eqb top (lit "..")
             | [] => false
             end
  then comp :: new_comps
  else tl new_comps.

(** ['/'.join(comps)] *)
Fixpoint slash_join (comps : list str) : str :=
  match comps with
  | [] => []
  | [c] => c
  | c :: rest => c ++ sep :: slash_join rest
  end.

(** [os.path.normpath] *)
Definition normpath (path : str) : str :=
  if negb (truthy path) then lit "."
  else
    let initial_slashes :=
      if startswith path (lit "/")
      then if startswith path (lit "//") && negb (startswith path (lit "///"))
           then 2%nat else 1%nat
      else 0%nat in
    let comps :=
      rev (fold_left (norm_step (negb (Nat.eqb initial_slashes 0)))
                     (PosixPath.split path) []) in
    or_else (repeat sep initial_slashes ++ slash_join comps) (lit ".").

(** [os.path.abspath], [cwd] being [os.getcwd()] *)
Definition abspath (cwd path : str) : str :=
  normpath (if isabs path then path else join cwd path).

(** [[x for x in s.split('/') if x]] *)
Definition parts (s : str) : list str :=
  filter truthy (PosixPath.split s).

(** Order of strings, by character code. *)
Fixpoint str_ltb (a b : str) : bool :=
  match a, b with
  | _, [] => false
  | [], _ :: _ => true
  | x :: a', y :: b' =>
      if Ascii.eqb x y then str_ltb a' b' else PyStr.code x <? PyStr.code y
  end.

(** Order of lists of strings. *)
Fixpoint list_ltb (a b : list str) : bool :=
  match a, b with
  | _, [] => false
  | [], _ :: _ => true
  | x :: a', y :: b' =>
      if PyStr.eqb x y then list_ltb a' b' else str_ltb x y
  end.

(** The loop of [commonprefix]: the items of [s1] up to the first that
    differs from the item of [s2] at its place. *)
Fixpoint agree (s1 s2 : list str) : list str :=
  match s1, s2 with
  | x :: s1', y :: s2' => if PyStr.eqb x y then x :: agree s1' s2' else []
  | _, _ => []
  end.

(** [os.path.commonprefix([a, b])]: the loop run on [min] and [max]. *)
Definition commonprefix (a b : list str) : list str :=
  if list_ltb b a then agree b a else agree a b.

(** [os.path.join] applied to the items of a non-empty list *)
Definition join_all (comps : list str) : str :=
  match comps with
  | [] => []
  | c :: rest => fold_left join rest c
  end.

(** [os.path.relpath(path, start)]; [None] for the [ValueError] on an empty
    path. *)
Definition relpath (cwd path start : str) : option str :=
  if negb (truthy path) then None
  else
    let start_list := parts (abspath cwd start) in
    let path_list := parts (abspath cwd path) in
    let i := List.length (commonprefix start_list path_list) in
    let rel_list :=
      repeat (lit "..") (List.length start_list - i) ++ skipn i path_list in
    match rel_list with
    | [] => Some (lit ".")
    | _ => Some (join_all rel_list)
    end.

(** A loop that collects what its body returns, until the body raises. *)
Fixpoint collect {A B} (body : A -> option B) (l : list A) : option (list B) :=
  match l with
  | [] => Some []
  | x :: l' =>
      match body x with
      | None => None
      | Some y =>
          match collect body l' with
          | None => None
          | Some ys => Some (y :: ys)
          end
      end
  end.

(** The pairs of directory and file name the two nested loops of
    [create_zip_from_folder] go through. *)
Definition loop_items (w : list (str * list str * list str))
  : list (str * str) :=
  flat_map (fun w : str * list str * list str =>
              let '(root, _, files) := w in
              map (fun file => (root, file)) files) w.

(** The body of the inner loop: the arguments of [zf.write]. *)
Definition write_call (cwd src_folder : str) (rf : str * str)
  : option (str * str) :=
  let (root, file) := rf in
  let fullpath := join root file in
  match relpath cwd fullpath src_folder with
  | Some arcname => Some (fullpath, arcname)
  | None => None
  end.

(** The calls [zf.write(fullpath, arcname)] of [create_zip_from_folder], in
    order. *)
Definition zip_writes (cwd src_folder : str) (t : tree)
  : option (list (str * str)) :=
  collect (write_call cwd src_folder) (loop_items (os_walk src_folder t)).

(** The files of the tree, each as the names that lead to it from the top,
    in the order of the walk. *)
Fixpoint files_below (t : tree) : list (list str) :=
  match t with
  | Node files dirs => map (fun f => [f]) files ++ files_in dirs
  end
with files_in (ds : forest) : list (list str) :=
  match ds with
  | No_more => []
  | Subdir name sub rest => map (cons name) (files_below sub) ++ files_in rest
  end.

(** A name of a file or directory: not empty, without ['/'], and not ["."]
    or [".."]. *)
Definition good_name (name : str) : Prop :=
  plain name = true /\ name <> [] /\ is_dot_name name = false.

(** Every name in the tree is such a name. *)
Fixpoint good_tree (t : tree) : Prop :=
  match t with
  | Node files dirs => Forall good_name files /\ good_forest dirs
  end
with good_forest (ds : forest) : Prop :=
  match ds with
  | No_more => True
  | Subdir name sub rest => good_name name /\ good_tree sub /\ good_forest rest
  end.

(** A component kept by the normalisation: free of ['/'] and not empty. *)
Definition part (w : str) : Prop := plain w = true /\ w <> [].

(** No component of the stack is [".."]. *)
Definition no_up (st : list str) : Prop :=
  Forall (fun w => PyStr.eqb w (lit "..") = false) st.

(** What is written for the file reached by [names] from a directory [r]
    that lies [pre] below the source folder. *)
Definition entry_of (r : str) (pre names : list str) : str * str :=
  (fold_left join names r, slash_join (pre ++ names)).

End ZipEntries.

Import ZipEntries.

(** ** [read_config] *)
Module Config.

(** [c.isspace()] on ASCII: tab to carriage return, the four separators
    and the space. *)
Definition is_space (c : ascii) : bool :=
  let n := PyStr.code c in
  ((9 <=? n) && (n <=? 13)) || ((28 <=? n) && (n <=? 31)) || (n =? 32).

(** [s.strip()] *)
Definition strip_ws (s : str) : str :=
  PyStr.dropwhile is_space (rev (PyStr.dropwhile is_space (rev s))).

(** Decimal digits with single underscores between them; [after_digit]
    tells whether the character before was a digit. *)
Fixpoint digits_us (acc : Z) (after_digit : bool) (s : str) : option Z :=
  match s with
  | [] => if after_digit then Some acc else None
  | c :: s' =>
      if Ascii.eqb c "_"
      then if after_digit then digits_us acc false s' else None
      else
        match Datetime.digit_val c with
        | Some d => digits_us (acc * 10 + d) true s'
        | None => None
        end
  end.

(** [int(s)]; [None] for [ValueError]. *)
Definition py_int (s : str) : option Z :=
  match strip_ws s with
  | c :: r =>
      if Ascii.eqb c "+" then digits_us 0 false r
      else if Ascii.eqb c "-" then option_map Z.opp (digits_us 0 false r)
      else digits_us 0 false (c :: r)
  | [] => None
  end.

(** The environment, after [load_dotenv]. *)
Definition environ := str -> option str.

(** [os.getenv(key, default)] *)
Definition getenv (env : environ) (key : string) (default : str) : str :=
  match env (lit key) with
  | Some v => v
  | None => default
  end.

Record config := mk_config {
  host : option str;
  port : Z;
  user : option str;
  passwd : option str;
  key_path : option str;
  key_passphrase : option str;
  dir : str;
  output_dir : str;
  zip_prefix : str;
  timeout : Z;
  keep_backups : Z
}.

Inductive config_error :=
| Not_a_number (key : string)
| Must_be_set (key : string).

(** [not v] for a value that is a string or [None] *)
Definition unset (v : option str) : bool :=
  match v with
  | Some s => negb (PyStr.truthy s)
  | None => true
  end.

Definition read_config (env : environ) : config + config_error :=
  match py_int (getenv env "SFTP_PORT" (lit "22")) with
  | None => inr (Not_a_number "SFTP_PORT")
  | Some port =>
      match py_int (getenv env "SFTP_TIMEOUT" (lit "30")) with
      | None => inr (Not_a_number "SFTP_TIMEOUT")
      | Some timeout =>
          match py_int (getenv env "KEEP_BACKUPS" (lit "3")) with
          | None => inr (Not_a_number "KEEP_BACKUPS")
          | Some keep_backups =>
              let cfg :=
                mk_config (env (lit "SFTP_HOST")) port
                          (env (lit "SFTP_USER"))
                          (env (lit "SFTP_PASS"))
                          (env (lit "SFTP_KEY_PATH"))
                          (env (lit "SFTP_KEY_PASSPHRASE"))
                          (strip_ws (getenv env "SFTP_DIR" []))
                          (getenv env "OUTPUT_DIR" (lit "."))
                          (strip_ws (getenv env "ZIP_PREFIX" []))
                          timeout keep_backups in
              if unset (host cfg) then inr (Must_be_set "SFTP_HOST")
              else if unset (user cfg) then inr (Must_be_set "SFTP_USER")
              else if negb (PyStr.truthy (dir cfg))
                   then inr (Must_be_set "SFTP_DIR")
              else inl cfg
          end
      end
  end.

(** The text has no white space at either end. *)
Definition trimmed (s : str) : Prop :=
  match s with
  | [] => True
  | c :: _ => is_space c = false /\ is_space (last s c) = false
  end.

End Config.

(** ** [main] *)
Module Main.

Import Config.

(** What the run meets outside the program. *)
Record world := mk_world {
  env : environ;
  connect_ok : bool;          (* [ssh.connect] returns *)
  open_sftp_ok : bool;        (* [ssh.open_sftp] returns *)
  session : sftp_client;
  mkdtemp : option str;       (* the directory [tempfile.mkdtemp] makes *)
  depth : nat;                (* nested calls the interpreter allows *)
  now : datetime;             (* [datetime.utcnow()] *)
  output_dir_ok : bool;       (* [os.makedirs(output_dir)] returns *)
  zip_ok : bool;              (* the archive is written *)
  utcoffset : Z;              (* the local time zone *)
  output : directory;         (* the output directory, the archive made *)
  tmpdir_exists : bool;       (* [os.path.exists(tmpdir)] at the end *)
  rmtree_ok : bool            (* [shutil.rmtree] returns *)
}.

Inductive step :=
| Print_configuration_error
| Ssh_connect
| Open_sftp
| Mkdtemp (tmpdir : str)
| Mirror (a : action)
| Print_failed_to_download
| Make_output_dir (output_dir : str)
| Write_archive (zip_path : str)
| Prune (e : event)
| Print_error
| Sftp_close
| Ssh_close
| Rmtree (tmpdir : str).

(** The steps of the [try] body, and whether it raised. *)
Definition body (w : world) (cfg : config) : list step * bool :=
  if negb (connect_ok w) then ([Ssh_connect], true)
  else if negb (open_sftp_ok w) then ([Ssh_connect; Open_sftp], true)
  else
    match mkdtemp w with
    | None => ([Ssh_connect; Open_sftp], true)
    | Some tmpdir =>
        let remote_dir := dir cfg in
        let target := local_target tmpdir remote_dir in
        let (acts, err) :=
          download_sftp_dir (depth w) (session w) remote_dir target in
        let before := [Ssh_connect; Open_sftp; Mkdtemp tmpdir]
                      ++ map Mirror acts in
        match err with
        | Some _ => (before ++ [Print_failed_to_download], true)
        | None =>
            let made := Make_output_dir (output_dir cfg) in
            let zip := zip_path (now w) (output_dir cfg) (zip_prefix cfg) in
            if negb (output_dir_ok w) then (before ++ [made], true)
            else if negb (zip_ok w)
            then (before ++ [made; Write_archive zip], true)
            else
              let o := cleanup_old_backups (utcoffset w) (output w)
                         (output_dir cfg) (zip_prefix cfg)
                         (keep_backups cfg) in
              (before ++ made :: Write_archive zip
                      :: map Prune (out_trace o),
               match out_exit o with Returns => false | Raises => true end)
        end
    end.

(** The steps of the [finally] clause, and whether it raised. *)
Definition finally (w : world) : list step * bool :=
  let closes :=
    if connect_ok w && open_sftp_ok w then [Sftp_close; Ssh_close] else [] in
  match mkdtemp w with
  | Some tmpdir =>
      if connect_ok w && open_sftp_ok w
         && PyStr.truthy tmpdir && tmpdir_exists w
      then (closes ++ [Rmtree tmpdir], negb (rmtree_ok w))
      else (closes, false)
  | None => (closes, false)
  end.

(** The steps of a run and the exit status of the process. *)
Definition main (w : world) : list step * Z :=
  match read_config (env w) with
  | inr _ => ([Print_configuration_error], 2)
  | inl cfg =>
      let (steps, raised) := body w cfg in
      let (last_steps, failed) := finally w in
      (steps ++ (if raised then [Print_error] else []) ++ last_steps,
       if raised || failed then 1 else 0)
  end.

(** The directories a step makes: the one [tempfile.mkdtemp] returns, the
    ones handed to [os.makedirs]. *)
Definition made_dirs (s : step) : list str :=
  match s with
  | Mkdtemp tmpdir => [tmpdir]
  | Mirror (Makedirs p) => [p]
  | Make_output_dir p => [p]
  | _ => []
  end.

(** The local files a step writes: the destination of [sftp.get], the
    archive [zipfile.ZipFile] opens for writing. *)
Definition written_files (s : step) : list str :=
  match s with
  | Mirror (Get _ p) => [p]
  | Write_archive p => [p]
  | _ => []
  end.

(** The paths the run called [os.remove] on. *)
Fixpoint removed (steps : list step) : list str :=
  match steps with
  | [] => []
  | Prune (Os_remove p _) :: rest => p :: removed rest
  | _ :: rest => removed rest
  end.

End Main.

(** ** More concrete inputs *)
Module Examples.

Import Scenario Config Main.

(** A server with the tree of the specification's scenario: [/data] holds
    [f1.txt] and [sub/f2.txt]; its listings also name ["."] and [".."]. *)
Definition friendly_listing (dir : str) : option (list entry) :=
  if PyStr.eqb dir (lit "/data")
  then Some [ mk_entry (lit ".") 16877; mk_entry (lit "..") 16877;
              mk_entry (lit "f1.txt") 33188; mk_entry (lit "sub") 16877 ]
  else if PyStr.eqb dir (lit "/data/sub")
  then Some [ mk_entry (lit "f2.txt") 33188 ]
  else None.

Definition friendly : sftp_client := mk_sftp friendly_listing (fun _ _ => true).


Definition tmp : str := lit "/tmp/sftp_download_x".

(** 2024-06-01T00:00:00 UTC *)
Definition mid_year : datetime := mk_datetime 2024 6 1 0 0 0 0.

(** The mirror of the friendly server under the temporary directory, with
    an empty directory beside it. *)
Definition mirrored_tree : tree :=
  Node []
    (Subdir (lit "data")
       (Node [lit "f1.txt"]
          (Subdir (lit "sub") (Node [lit "f2.txt"] No_more)
          (Subdir (lit "empty") (Node [] No_more) No_more)))
       No_more).

Definition settings (key : str) : option str :=
  if PyStr.eqb key (lit "SFTP_HOST") then Some (lit "backup.example.org")
  else if PyStr.eqb key (lit "SFTP_USER") then Some (lit "backup")
  else if PyStr.eqb key (lit "SFTP_DIR") then Some (lit "  /data ")
  else if PyStr.eqb key (lit "OUTPUT_DIR") then Some (lit "/backups")
  else if PyStr.eqb key (lit "ZIP_PREFIX") then Some (lit " a")
  else if PyStr.eqb key (lit "KEEP_BACKUPS") then Some (lit "1")
  else None.

(** A run on the friendly server at [mid_year] that finds the three
    archives of the scenario in the output directory. *)
Definition good_run : world :=
  mk_world settings true true friendly (Some tmp) 50 mid_year true true 0
           (Listing three_archives) true true.

End Examples.

(** * Properties *)

Import Spec Scenario.

(** ** Lists: sorting and slicing *)
Section Sorting.

Context {A : Type} (key : A -> Z).

Lemma insert_asc_perm (x : A) (l : list A) :
  Permutation (insert_asc key x l) (x :: l).
Proof.
  induction l as [|y l IH]; simpl.
  - apply Permutation_refl.
  - destruct (key x <=? key y).
    + apply Permutation_refl.
    + eapply perm_trans; [apply perm_skip, IH | apply perm_swap].
Qed.

Lemma sort_asc_perm (l : list A) : Permutation (sort_asc key l) l.
Proof.
  induction l as [|x l IH]; simpl.
  - constructor.
  - eapply perm_trans; [apply insert_asc_perm | now apply perm_skip].
Qed.

Lemma insert_asc_sorted (x : A) (l : list A) :
  StronglySorted (ascending key) l -> StronglySorted (ascending key) (insert_asc key x l).
Proof.
  induction l as [|y l IH]; simpl; intros Hs.
  - constructor; [constructor | constructor].
  - apply StronglySorted_inv in Hs as [Hl Hy].
    destruct (key x <=? key y) eqn:E.
    + apply Z.leb_le in E.
      constructor; [constructor; assumption |].
      constructor; [exact E |].
      eapply Forall_impl; [| exact Hy].
      unfold ascending; intros; lia.
    + apply Z.leb_gt in E.
      constructor; [now apply IH |].
      eapply Permutation_Forall.
      * apply Permutation_sym, insert_asc_perm.
      * constructor; [unfold ascending; lia | exact Hy].
Qed.

Lemma sort_asc_sorted (l : list A) : StronglySorted (ascending key) (sort_asc key l).
Proof.
  induction l as [|x l IH]; simpl.
  - constructor.
  - now apply insert_asc_sorted.
Qed.

Lemma sorted_app (R : A -> A -> Prop) (a b : list A) :
  StronglySorted R (a ++ b) <->
  StronglySorted R a /\ StronglySorted R b
  /\ (forall x y, In x a -> In y b -> R x y).
Proof.
  induction a as [|h a IH]; simpl.
  - split.
    + intros H; repeat split; [constructor | exact H | intros ? ? []].
    + intros (_ & H & _); exact H.
  - split.
    + intros H. apply StronglySorted_inv in H as [Hs Hf].
      apply IH in Hs as (Ha & Hb & Hab).
      rewrite Forall_app in Hf. destruct Hf as [Hfa Hfb].
      repeat split; [constructor; assumption | assumption |].
      intros x y [<- | Hx] Hy.
      * rewrite Forall_forall in Hfb. now apply Hfb.
      * now apply Hab.
    + intros (Ha & Hb & Hab).
      apply StronglySorted_inv in Ha as [Ha Hf].
      constructor.
      * apply IH. repeat split; try assumption.
        intros x y Hx Hy. apply Hab; [now right | exact Hy].
      * rewrite Forall_app. split; [exact Hf |].
        rewrite Forall_forall. intros y Hy. apply Hab; [now left | exact Hy].
Qed.

Lemma sorted_rev (l : list A) :
  StronglySorted (ascending key) l -> StronglySorted (descending key) (rev l).
Proof.
  induction 1 as [|x l Hs IH Hf]; simpl.
  - constructor.
  - apply sorted_app. repeat split.
    + exact IH.
    + constructor; [constructor | constructor].
    + intros a b Ha [<- | []].
      rewrite Forall_forall in Hf.
      apply in_rev in Ha. exact (Hf _ Ha).
Qed.

(** [list.sort(key=key, reverse=True)] rearranges the list, newest first. *)
Lemma list_sort_reverse_perm (l : list A) :
  Permutation (list_sort key true l) l.
Proof.
  unfold list_sort.
  eapply perm_trans; [apply Permutation_sym, Permutation_rev |].
  eapply perm_trans; [apply sort_asc_perm |].
  apply Permutation_sym, Permutation_rev.
Qed.

Lemma list_sort_reverse_sorted (l : list A) :
  StronglySorted (descending key) (list_sort key true l).
Proof. unfold list_sort. apply sorted_rev, sort_asc_sorted. Qed.

(** For [0 <= k] the two slices split the list at [k]. *)
Lemma slices_split (k : Z) (l : list A) :
  Retention.slice_to k l ++ Retention.slice_from k l = l.
Proof.
  unfold Retention.slice_to, Retention.slice_from.
  destruct (k <? 0); apply firstn_skipn.
Qed.

Lemma slice_from_length (k : Z) (l : list A) :
  0 <= k ->
  List.length (Retention.slice_from k l) = (List.length l - Z.to_nat k)%nat.
Proof.
  intros Hk. unfold Retention.slice_from.
  destruct (k <? 0) eqn:E; [apply Z.ltb_lt in E; lia |].
  apply length_skipn.
Qed.

Lemma slice_to_length (k : Z) (l : list A) :
  0 <= k <= Z.of_nat (List.length l) ->
  List.length (Retention.slice_to k l) = Z.to_nat k.
Proof.
  intros Hk. unfold Retention.slice_to.
  destruct (k <? 0) eqn:E; [apply Z.ltb_lt in E; lia |].
  rewrite length_firstn. lia.
Qed.

End Sorting.

(** ** The retention pass *)
Lemma eqb_eq (a b : str) : PyStr.eqb a b = true <-> a = b.
Proof.
  revert b. induction a as [|x a IH]; intros [|y b]; simpl;
    try (split; [discriminate | congruence]); [tauto |].
  rewrite andb_true_iff, Ascii.eqb_eq, IH.
  split; [intros [-> ->]; reflexivity | intros H; now inversion H].
Qed.

Section RetentionPass.

Variables (utcoffset : Z) (output_dir prefix : str).

Lemma remove_loop_attempts (to_delete : list str) :
  forall d,
    attempts (snd (remove_loop d output_dir to_delete))
    = map (join output_dir) to_delete.
Proof.
  induction to_delete as [|fname rest IH]; intros d; simpl.
  - reflexivity.
  - destruct (os_remove d output_dir (join output_dir fname)) as [d'|].
    + specialize (IH d').
      destruct (remove_loop d' output_dir rest) as [d'' t]; simpl in *.
      now rewrite IH.
    + specialize (IH d).
      destruct (remove_loop d output_dir rest) as [d'' t]; simpl in *.
      now rewrite IH.
Qed.

Lemma remove_loop_reports (to_delete : list str) :
  forall d,
    reported (snd (remove_loop d output_dir to_delete))
    = failures (snd (remove_loop d output_dir to_delete)).
Proof.
  induction to_delete as [|fname rest IH]; intros d; simpl.
  - reflexivity.
  - destruct (os_remove d output_dir (join output_dir fname)) as [d'|].
    + specialize (IH d').
      destruct (remove_loop d' output_dir rest) as [d'' t]; simpl in *.
      exact IH.
    + specialize (IH d).
      destruct (remove_loop d output_dir rest) as [d'' t]; simpl in *.
      now rewrite IH.
Qed.

(** With a positive [keep] and a listable directory the pass is the loop
    over the tail of the ranking. *)
Lemma cleanup_unfold (es : list (str * file_info)) (keep : Z) :
  0 < keep ->
  cleanup_old_backups utcoffset (Listing es) output_dir prefix keep
  = let files := ranked utcoffset (Listing es) output_dir prefix (map fst es) in
    let r := remove_loop (Listing es) output_dir (Retention.slice_from keep files) in
    mk_outcome Returns (fst r) (snd r).
Proof.
  intros Hk. unfold cleanup_old_backups.
  destruct (keep <=? 0) eqn:E; [apply Z.leb_le in E; lia |].
  simpl.
  destruct (remove_loop _ _ _); reflexivity.
Qed.

(** C5. Called with [keep <= 0] the retention pass returns at once: nothing
    is listed, nothing is removed and the directory is left as it was,
    whatever the directory holds (candidates or not) and even where listing
    it would raise. *)
Theorem C5_nonpositive_keep_returns_at_once (d : directory) (keep : Z) :
  keep <= 0 ->
  cleanup_old_backups utcoffset d output_dir prefix keep
  = mk_outcome Returns d [].
Proof.
  intros Hk. unfold cleanup_old_backups.
  apply Z.leb_le in Hk. now rewrite Hk.
Qed.


Lemma reported_app (t1 t2 : list event) :
  reported (t1 ++ t2) = reported t1 ++ reported t2.
Proof.
  induction t1 as [|e t1 IH]; [reflexivity |].
  destruct e; simpl; [exact IH | exact IH | now rewrite IH].
Qed.

Lemma remove_loop_app (pre post : list str) :
  forall d,
    remove_loop d output_dir (pre ++ post)
    = let (d1, t1) := remove_loop d output_dir pre in
      let (d2, t2) := remove_loop d1 output_dir post in
      (d2, t1 ++ t2).
Proof.
  induction pre as [|fname pre IH]; intros d; simpl.
  - now destruct (remove_loop d output_dir post).
  - destruct (os_remove d output_dir (join output_dir fname)) as [d'|].
    + rewrite IH. destruct (remove_loop d' output_dir pre) as [d1 t1].
      now destruct (remove_loop d1 output_dir post).
    + rewrite IH. destruct (remove_loop d output_dir pre) as [d1 t1].
      now destruct (remove_loop d1 output_dir post).
Qed.

(** Removing the first entry that [q] holds of leaves the first entry that
    [p] holds of, when no entry passes both. *)
Lemma find_remove_first_other (p q : str * file_info -> bool)
    (es : list (str * file_info)) :
  (forall e, q e = true -> p e = false) ->
  find p (remove_first q es) = find p es.
Proof.
  intros H. induction es as [|e es IH]; simpl; [reflexivity |].
  destruct (q e) eqn:Eq.
  - now rewrite (H e Eq).
  - simpl. now rewrite IH.
Qed.

(** A file removed is not the file another path names. *)
Lemma os_remove_keeps_other (d d' : directory) (p q : str) :
  os_remove d output_dir q = Some d' -> p <> q ->
  find (names_path output_dir p) (entries_of d')
  = find (names_path output_dir p) (entries_of d).
Proof.
  unfold os_remove. intros H Hpq.
  destruct (find (names_path output_dir q) (entries_of d)) as [e|];
    [| discriminate].
  destruct (removable (snd e)); [| discriminate].
  injection H as <-. cbn [entries_of].
  apply find_remove_first_other.
  intros x Hx. unfold names_path in *.
  destruct (PyStr.eqb (join output_dir (fst x)) p) eqn:E; [| reflexivity].
  apply eqb_eq in Hx. apply eqb_eq in E. congruence.
Qed.

(** Whether [os.remove] raises on a path depends on the file of that path
    alone. *)
Lemma os_remove_raises_alike (d d' : directory) (p : str) :
  find (names_path output_dir p) (entries_of d')
  = find (names_path output_dir p) (entries_of d) ->
  os_remove d output_dir p = None -> os_remove d' output_dir p = None.
Proof.
  unfold os_remove. intros ->.
  destruct (find (names_path output_dir p) (entries_of d)) as [e|];
    [| reflexivity].
  now destruct (removable (snd e)).
Qed.

(** A file on which [os.remove] raises is as it was after the loop, and
    [os.remove] still raises on it. *)
Lemma remove_loop_keeps_failing (p : str) (to_delete : list str) :
  forall d,
    os_remove d output_dir p = None ->
    find (names_path output_dir p)
         (entries_of (fst (remove_loop d output_dir to_delete)))
    = find (names_path output_dir p) (entries_of d)
    /\ os_remove (fst (remove_loop d output_dir to_delete)) output_dir p
       = None.
Proof.
  induction to_delete as [|fname rest IH]; intros d H; simpl.
  - now split.
  - destruct (os_remove d output_dir (join output_dir fname)) as [d'|] eqn:E.
    + assert (Hpq : p <> join output_dir fname)
        by (intros ->; congruence).
      pose proof (@os_remove_keeps_other d d' p _ E Hpq) as Hfind.
      pose proof (@os_remove_raises_alike d d' p Hfind H) as H'.
      destruct (IH d' H') as [IH1 IH2].
      destruct (remove_loop d' output_dir rest) as [d'' t]. simpl in *.
      split; [congruence | exact IH2].
    + destruct (IH d H) as [IH1 IH2].
      destruct (remove_loop d output_dir rest) as [d'' t]. simpl in *.
      now split.
Qed.

(** C7. A failure to remove one file does not abort the pass.  Take a pass
    that has files to delete ([keep] positive, the directory listable) and
    any file [fname] among them on which [os.remove] raises: the pass
    returns; its trace holds the failed call followed at once by the report
    of the failure; the calls before it are those on the files to delete
    before [fname], the calls after it are those on every file to delete
    after [fname]; what is reported is what failed, no more and no less;
    and the file is left in the directory as it was. *)
Theorem C7_failed_removal_does_not_abort (es : list (str * file_info))
    (keep : Z) (pre post : list str) (fname : str) :
  let d := Listing es in
  let path := join output_dir fname in
  let o := cleanup_old_backups utcoffset d output_dir prefix keep in
  0 < keep ->
  Retention.slice_from keep
    (ranked utcoffset d output_dir prefix (map fst es))
  = pre ++ fname :: post ->
  os_remove d output_dir path = None ->
  out_exit o = Returns
  /\ (exists before after,
        out_trace o
        = before ++ Print_removing path :: Os_remove path false
                 :: Print_failed path :: after
        /\ attempts before = map (join output_dir) pre
        /\ attempts after = map (join output_dir) post)
  /\ reported (out_trace o) = failures (out_trace o)
  /\ In path (reported (out_trace o))
  /\ find (names_path output_dir path) (entries_of (out_dir o))
     = find (names_path output_dir path) es.
Proof.
  intros d path o Hk Hsplit Hfail. subst d.
  assert (Ho : o = let r := remove_loop (Listing es) output_dir
                             (pre ++ fname :: post) in
                   mk_outcome Returns (fst r) (snd r)).
  { unfold o. rewrite cleanup_unfold by exact Hk. cbv zeta.
    now rewrite Hsplit. }
  clearbody o. subst o. cbv zeta. cbn [out_exit out_trace out_dir].
  pose proof (remove_loop_reports (pre ++ fname :: post) (Listing es))
    as Hrep.
  rewrite remove_loop_app in Hrep |- *.
  pose proof (remove_loop_attempts pre (Listing es)) as Hpre.
  destruct (@remove_loop_keeps_failing path pre (Listing es) Hfail)
    as [Hfind1 Hfail1].
  destruct (remove_loop (Listing es) output_dir pre) as [d1 t1].
  cbn [fst snd] in Hpre, Hfind1, Hfail1.
  cbn [remove_loop] in Hrep |- *. fold path in Hrep |- *.
  rewrite Hfail1 in Hrep |- *.
  pose proof (remove_loop_attempts post d1) as Hpost.
  destruct (@remove_loop_keeps_failing path post d1 Hfail1) as [Hfind2 _].
  destruct (remove_loop d1 output_dir post) as [d2 t2].
  cbn [fst snd] in Hrep, Hpost, Hfind2 |- *.
  split; [reflexivity |]. split.
  { exists t1, t2. split; [reflexivity |]. now split. }
  split; [exact Hrep |]. split.
  { rewrite reported_app. apply in_or_app. right. simpl. now left. }
  cbn [entries_of] in Hfind1. congruence.
Qed.

(** C1. With [0 < keep < candidateCount] the pass calls [os.remove] on
    exactly [candidateCount - keep] files, the tail of the ranking; the
    files it leaves alone are [keep] candidates, together with the removed
    ones they are the candidates, none of them is older than a removed one,
    and they are ranked newest first. *)
Theorem C1_keeps_the_newest (es : list (str * file_info)) (keep : Z) :
  let d := Listing es in
  let cands := candidates prefix (map fst es) in
  let key := file_key utcoffset d output_dir prefix in
  let files := ranked utcoffset d output_dir prefix (map fst es) in
  let kept := Retention.slice_to keep files in
  let deleted := Retention.slice_from keep files in
  let o := cleanup_old_backups utcoffset d output_dir prefix keep in
  0 < keep < Z.of_nat (List.length cands) ->
  out_exit o = Returns
  /\ attempts (out_trace o) = map (join output_dir) deleted
  /\ List.length (attempts (out_trace o))
     = (List.length cands - Z.to_nat keep)%nat
  /\ List.length kept = Z.to_nat keep
  /\ Permutation (kept ++ deleted) cands
  /\ (forall x y, In x kept -> In y deleted -> key y <= key x)
  /\ StronglySorted (descending key) kept.
Proof.
  intros d cands key files kept deleted o Hk.
  assert (Hperm : Permutation files cands)
    by apply list_sort_reverse_perm.
  assert (Hlen : List.length files = List.length cands)
    by now apply Permutation_length.
  assert (Hsorted : StronglySorted (descending key) (kept ++ deleted)).
  { unfold kept, deleted. rewrite slices_split.
    apply list_sort_reverse_sorted. }
  apply sorted_app in Hsorted as (Hkept & _ & Hrank).
  assert (Hatt : attempts (out_trace o) = map (join output_dir) deleted).
  { unfold o, d. rewrite cleanup_unfold by lia. simpl.
    apply remove_loop_attempts. }
  split.
  { unfold o, d. rewrite cleanup_unfold by lia. reflexivity. }
  split; [exact Hatt |].
  split.
  { rewrite Hatt, length_map. unfold deleted.
    rewrite slice_from_length by lia. now rewrite Hlen. }
  split.
  { unfold kept. apply slice_to_length. rewrite Hlen. lia. }
  split.
  { unfold kept, deleted. rewrite slices_split. exact Hperm. }
  split; [| exact Hkept].
  intros x y Hx Hy. exact (Hrank x y Hx Hy).
Qed.

End RetentionPass.

(** ** The walker *)
Section WalkerProperties.

Lemma for_each_ext {A : Type} (f g : A -> result) (l : list A) :
  (forall x, f x = g x) -> for_each f l = for_each g l.
Proof.
  intros H. induction l as [|x l IH]; simpl.
  - reflexivity.
  - now rewrite H, IH.
Qed.

(** Items on which the body does nothing can be left out of the loop. *)
Lemma for_each_filter {A : Type} (body : A -> result) (p : A -> bool)
    (l : list A) :
  (forall x, p x = false -> body x = ([], None)) ->
  for_each body (filter p l) = for_each body l.
Proof.
  intros H. induction l as [|x l IH]; simpl.
  - reflexivity.
  - destruct (p x) eqn:E; simpl.
    + now rewrite IH.
    + rewrite (H x E), IH.
      now destruct (for_each body l).
Qed.

Lemma visit_dot_name recur sftp remote_dir local_dir (e : entry) :
  is_dot_name (filename e) = true ->
  visit recur sftp remote_dir local_dir e = ([], None).
Proof. intros H. unfold visit. now rewrite H. Qed.

Lemma visit_ext recur recur' sftp remote_dir local_dir (e : entry) :
  (forall r l, recur r l = recur' r l) ->
  visit recur (without_dot_entries sftp) remote_dir local_dir e
  = visit recur' sftp remote_dir local_dir e.
Proof.
  intros H. unfold visit.
  destruct (is_dot_name (filename e)); [reflexivity |].
  destruct (S_ISDIR (st_mode e)); [apply H | reflexivity].
Qed.

Lemma download_without_dot_entries (depth : nat) (sftp : sftp_client) :
  forall remote_dir local_dir,
    download_sftp_dir depth (without_dot_entries sftp) remote_dir local_dir
    = download_sftp_dir depth sftp remote_dir local_dir.
Proof.
  induction depth as [|depth IH]; intros remote_dir local_dir; simpl.
  - reflexivity.
  - destruct (listdir_attr sftp remote_dir) as [entries|]; simpl;
      [| reflexivity].
    rewrite for_each_filter.
    + rewrite (for_each_ext _
        (visit (download_sftp_dir depth sftp) sftp remote_dir local_dir));
        [reflexivity |].
      intros e. now apply visit_ext.
    + intros e He. apply visit_dot_name.
      now destruct (is_dot_name (filename e)).
Qed.

(** C8. An entry named ["."] or [".."] is passed over before any path is
    built from it: the loop body does nothing on it, whatever its mode, and
    the whole walk performs the same actions and ends the same way as on
    the listings with these entries left out. *)
Theorem C8_dot_entries_are_skipped :
  (forall recur sftp remote_dir local_dir mode,
      visit recur sftp remote_dir local_dir (mk_entry (lit ".") mode)
      = ([], None)
      /\ visit recur sftp remote_dir local_dir (mk_entry (lit "..") mode)
         = ([], None))
  /\ (forall depth sftp remote_dir local_dir,
        download_sftp_dir depth (without_dot_entries sftp) remote_dir local_dir
        = download_sftp_dir depth sftp remote_dir local_dir).
Proof.
  split.
  - intros. split; apply visit_dot_name; reflexivity.
  - intros. apply download_without_dot_entries.
Qed.

End WalkerProperties.

(** ** Strings *)
Section StringFacts.

Lemma startswith_app (p s : str) : startswith (p ++ s) p = true.
Proof.
  induction p as [|c p IH]; simpl; [reflexivity |].
  now rewrite Ascii.eqb_refl.
Qed.

Lemma startswith_split (s p : str) :
  startswith s p = true -> s = p ++ skipn (List.length p) s.
Proof.
  revert s. induction p as [|c p IH]; intros s H; simpl in *.
  - reflexivity.
  - destruct s as [|d s]; [discriminate |].
    apply andb_true_iff in H as [Hc Hs].
    apply Ascii.eqb_eq in Hc. subst d.
    f_equal. now apply IH.
Qed.

Lemma skipn_exact (p s : str) : skipn (List.length p) (p ++ s) = s.
Proof. induction p as [|c p IH]; simpl; [reflexivity | exact IH]. Qed.

Lemma split_first_unfold (sep s : str) :
  split_first sep s =
  if startswith s sep then Some ([], skipn (List.length sep) s)
  else
    match s with
    | [] => None
    | c :: s' =>
        match split_first sep s' with
        | Some (b, a) => Some (c :: b, a)
        | None => None
        end
    end.
Proof. destruct s; reflexivity. Qed.

Lemma split_first_some (sep s b a : str) :
  split_first sep s = Some (b, a) -> s = b ++ sep ++ a.
Proof.
  revert b a. induction s as [|c s IH]; intros b a H;
    rewrite split_first_unfold in H.
  - destruct (startswith [] sep) eqn:E; [| discriminate].
    inversion H; subst. now apply startswith_split.
  - destruct (startswith (c :: s) sep) eqn:E.
    + inversion H; subst. now apply startswith_split.
    + destruct (split_first sep s) as [[b' a']|]; [| discriminate].
      inversion H; subst. simpl. f_equal. now apply IH.
Qed.

Lemma split_first_occurs (sep b a : str) :
  split_first sep (b ++ sep ++ a) <> None.
Proof.
  induction b as [|c b IH]; rewrite split_first_unfold.
  - simpl. now rewrite startswith_app.
  - destruct (startswith ((c :: b) ++ sep ++ a) sep); [discriminate |].
    simpl. destruct (split_first sep (b ++ sep ++ a)) as [[? ?]|];
      [discriminate | contradiction].
Qed.

(** [sep in s] says that [s] can be cut around an occurrence of [sep]. *)
Lemma contains_iff (sep s : str) :
  contains sep s = true <-> exists b a, s = b ++ sep ++ a.
Proof.
  unfold contains. split.
  - destruct (split_first sep s) as [[b a]|] eqn:E; [| discriminate].
    intros _. exists b, a. now apply split_first_some.
  - intros (b & a & ->).
    pose proof (split_first_occurs sep b a).
    now destruct (split_first sep (b ++ sep ++ a)).
Qed.

(** A string that ends with the separator is cut at that last occurrence. *)
Lemma rsplit1_head_suffix (sep t : str) : rsplit1_head sep (t ++ sep) = t.
Proof.
  unfold rsplit1_head. rewrite rev_app_distr, split_first_unfold.
  rewrite startswith_app, skipn_exact. apply rev_involutive.
Qed.

(** A string without the separator is left whole. *)
Lemma rsplit1_head_absent (sep s : str) :
  contains sep s = false -> rsplit1_head sep s = s.
Proof.
  intros H. unfold rsplit1_head.
  destruct (split_first (rev sep) (rev s)) as [[b a]|] eqn:E; [| reflexivity].
  apply split_first_some in E.
  assert (Hs : contains sep s = true).
  { apply contains_iff. exists (rev a), (rev b).
    rewrite <- (rev_involutive s), E, !rev_app_distr, rev_involutive.
    now rewrite app_assoc. }
  congruence.
Qed.

Lemma contains_skipn (sep s : str) (n : nat) :
  contains sep s = false -> contains sep (skipn n s) = false.
Proof.
  intros H. destruct (contains sep (skipn n s)) eqn:E; [| reflexivity].
  apply contains_iff in E as (b & a & E).
  assert (Hs : contains sep s = true).
  { apply contains_iff. exists (firstn n s ++ b), a.
    rewrite <- (firstn_skipn n s) at 1. rewrite E. now rewrite app_assoc. }
  congruence.
Qed.

Lemma endswith_split (s p : str) :
  endswith s p = true -> exists t, s = t ++ p.
Proof.
  unfold endswith. intros H. apply startswith_split in H.
  exists (rev (skipn (List.length (rev p)) (rev s))).
  rewrite <- (rev_involutive p) at 2. rewrite <- rev_app_distr, <- H.
  symmetry. apply rev_involutive.
Qed.

Lemma endswith_app (t p : str) : endswith (t ++ p) p = true.
Proof. unfold endswith. rewrite rev_app_distr. apply startswith_app. Qed.

End StringFacts.

(** ** Timestamps: formatting and parsing *)

(** The bounds that [valid dt = true] packs, as hypotheses. *)
Ltac split_valid H :=
  unfold valid in H;
  repeat (apply andb_true_iff in H; destruct H as [H ?]);
  repeat match goal with
         | H' : (_ <=? _) = true |- _ => apply Z.leb_le in H'
         end.

Section TimestampFacts.

Lemma digit_cases (d : Z) :
  0 <= d <= 9 ->
  d = 0 \/ d = 1 \/ d = 2 \/ d = 3 \/ d = 4 \/ d = 5 \/ d = 6 \/ d = 7
  \/ d = 8 \/ d = 9.
Proof. lia. Qed.

Ltac each_digit d H :=
  destruct (@digit_cases d H) as [-> | [-> | [-> | [-> | [-> | [-> | [-> | [->
    | [-> | ->]]]]]]]]].

Lemma digit_val_char (d : Z) : 0 <= d <= 9 -> digit_val (digit_char d) = Some d.
Proof. intros H. each_digit d H; reflexivity. Qed.

Lemma digit_char_not_space (d : Z) :
  0 <= d <= 9 -> Ascii.eqb (digit_char d) " " = false.
Proof. intros H. each_digit d H; reflexivity. Qed.

Lemma digit_char_field (d : Z) :
  0 <= d <= 9 -> is_field_char (digit_char d) = true.
Proof.
  intros H. unfold is_field_char, is_digit. now rewrite digit_val_char.
Qed.

Lemma digits_acc_snoc (s : str) (c : ascii) :
  forall acc,
    digits_acc acc (s ++ [c])
    = match digits_acc acc s, digit_val c with
      | Some v, Some d => Some (v * 10 + d)
      | _, _ => None
      end.
Proof.
  induction s as [|x s IH]; intros acc; simpl.
  - now destruct (digit_val c).
  - destruct (digit_val x); [apply IH | reflexivity].
Qed.

Lemma zfill_length (w : nat) : forall n, List.length (zfill w n) = w.
Proof.
  induction w as [|w IH]; intros n; simpl; [reflexivity |].
  rewrite length_app, IH. simpl. lia.
Qed.

Lemma zfill_field_chars (w : nat) :
  forall n, forallb is_field_char (zfill w n) = true.
Proof.
  induction w as [|w IH]; intros n; simpl; [reflexivity |].
  rewrite forallb_app, IH. simpl.
  rewrite digit_char_field; [reflexivity |].
  pose proof (Z.mod_pos_bound n 10). lia.
Qed.

(** Reading back a zero-padded number. *)
Lemma digits_acc_zfill (w : nat) :
  forall n, 0 <= n ->
    digits_acc 0 (zfill w n) = Some (n mod 10 ^ Z.of_nat w).
Proof.
  induction w as [|w IH]; intros n Hn.
  - simpl. now rewrite Z.mod_1_r.
  - cbn [zfill]. rewrite digits_acc_snoc.
    rewrite IH by (apply Z.div_pos; lia).
    rewrite digit_val_char by (pose proof (Z.mod_pos_bound n 10); lia).
    f_equal.
    rewrite Nat2Z.inj_succ, Z.pow_succ_r by lia.
    rewrite Z.rem_mul_r by lia. lia.
Qed.

Lemma digits_val_zfill (w : nat) (n : Z) :
  (0 < w)%nat -> 0 <= n < 10 ^ Z.of_nat w ->
  digits_val (zfill w n) = Some n.
Proof.
  intros Hw Hn. unfold digits_val.
  destruct (zfill w n) eqn:E.
  - apply (f_equal (@List.length ascii)) in E.
    rewrite zfill_length in E. simpl in E. lia.
  - rewrite <- E, digits_acc_zfill by lia.
    now rewrite Z.mod_small.
Qed.

Lemma ranged_zfill (lo hi : nat) (vlo vhi : Z) (w : nat) (n : Z) :
  (0 < w)%nat -> (lo <= w <= hi)%nat ->
  0 <= n < 10 ^ Z.of_nat w -> vlo <= n <= vhi ->
  ranged lo hi vlo vhi (zfill w n) = Some n.
Proof.
  intros Hw Hl Hn Hv. unfold ranged.
  rewrite digits_val_zfill, zfill_length by assumption.
  replace (lo <=? w)%nat with true by (symmetry; apply Nat.leb_le; lia).
  replace (w <=? hi)%nat with true by (symmetry; apply Nat.leb_le; lia).
  replace (vlo <=? n) with true by (symmetry; apply Z.leb_le; lia).
  replace (n <=? vhi) with true by (symmetry; apply Z.leb_le; lia).
  reflexivity.
Qed.

Lemma span_run (p : ascii -> bool) (run : str) (c : ascii) (rest : str) :
  forallb p run = true -> p c = false ->
  span p (run ++ c :: rest) = (run, c :: rest).
Proof.
  intros Hrun Hc. induction run as [|x run IH]; simpl in *.
  - now rewrite Hc.
  - apply andb_true_iff in Hrun as [Hx Hrun].
    now rewrite Hx, IH.
Qed.

(** A directive reads the zero-padded number in front of a literal. *)
Lemma field_zfill (re : str -> option Z) (w : nat) (n : Z) (c : ascii)
    (rest : str) :
  is_field_char c = false -> re (zfill w n) = Some n ->
  field re (zfill w n ++ c :: rest) = Some (n, c :: rest).
Proof.
  intros Hc Hre. unfold field.
  rewrite span_run by (try apply zfill_field_chars; assumption).
  now rewrite Hre.
Qed.

Lemma re_d_zfill (n : Z) : 1 <= n <= 31 -> re_d (zfill 2 n) = Some n.
Proof.
  intros Hn. unfold re_d.
  assert (H : ranged 1 2 1 31 (zfill 2 n) = Some n)
    by (apply ranged_zfill; simpl; lia).
  cbn [zfill app] in *.
  rewrite digit_char_not_space; [exact H |].
  pose proof (Z.mod_pos_bound (n / 10) 10). lia.
Qed.

Lemma re_f_zfill (n : Z) : 0 <= n <= 999999 -> re_f (zfill 6 n) = Some n.
Proof.
  intros Hn. unfold re_f.
  rewrite ranged_zfill by (simpl; lia).
  rewrite zfill_length. f_equal. simpl. lia.
Qed.

Lemma days_in_month_le_31 (y m : Z) : days_in_month y m <= 31.
Proof.
  unfold days_in_month.
  destruct (m =? 2); [destruct (is_leap y); lia |].
  destruct ((m =? 4) || (m =? 6) || (m =? 9) || (m =? 11)); lia.
Qed.

Ltac literal :=
  cbn [bind expect]; simpl (Ascii.eqb _ _); cbv iota; cbn [bind].

Lemma year_digits_four (y : Z) : 1000 <= y -> year_digits y = 4%nat.
Proof.
  intros Hy. unfold year_digits.
  destruct (y <? 10) eqn:E1; [apply Z.ltb_lt in E1; lia |].
  destruct (y <? 100) eqn:E2; [apply Z.ltb_lt in E2; lia |].
  destruct (y <? 1000) eqn:E3; [apply Z.ltb_lt in E3; lia |].
  reflexivity.
Qed.

(** A valid datetime of a year with four digits, written in the program's
    format, is read back to itself.  An earlier year is written with fewer
    digits than [%Y] reads. *)
Lemma strptime_strftime (dt : datetime) :
  valid dt = true -> 1000 <= year dt -> strptime (strftime dt) = Some dt.
Proof.
  intros Hv Hy. pose proof Hv as Hb. split_valid Hb.
  pose proof (days_in_month_le_31 (year dt) (month dt)).
  unfold strptime, strftime. rewrite (year_digits_four Hy).
  change (lit "-") with ["-"%char]. change (lit "T") with ["T"%char].
  change (lit ".") with ["."%char]. change (lit "Z") with ["Z"%char].
  cbn [app].
  rewrite (field_zfill re_Y) by
    (try reflexivity; apply ranged_zfill; simpl; lia).
  literal.
  rewrite (field_zfill re_m) by
    (try reflexivity; apply ranged_zfill; simpl; lia).
  literal.
  rewrite (field_zfill re_d) by
    (try reflexivity; apply re_d_zfill; lia).
  literal.
  rewrite (field_zfill re_H) by
    (try reflexivity; apply ranged_zfill; simpl; lia).
  literal.
  rewrite (field_zfill re_M) by
    (try reflexivity; apply ranged_zfill; simpl; lia).
  literal.
  rewrite (field_zfill re_S) by
    (try reflexivity; apply ranged_zfill; simpl; lia).
  literal.
  rewrite (field_zfill re_f) by
    (try reflexivity; apply re_f_zfill; lia).
  literal.
  destruct dt; simpl in *. now rewrite Hv.
Qed.

End TimestampFacts.

(** ** What a string that parses looks like *)
Section ParsedShape.

Lemma last_app_r (pre rest : str) (d : ascii) :
  rest <> [] -> last (pre ++ rest) d = last rest d.
Proof.
  intros H. induction pre as [|x pre IH]; simpl; [reflexivity |].
  destruct (pre ++ rest) eqn:E; [| exact IH].
  apply app_eq_nil in E as [_ ->]. contradiction.
Qed.

Lemma ends_in_z_app (pre rest : str) : ends_in_z rest -> ends_in_z (pre ++ rest).
Proof.
  intros [Hne Hz]. split.
  - intros E. apply app_eq_nil in E as [_ E]. contradiction.
  - now rewrite last_app_r.
Qed.

Lemma span_app (p : ascii -> bool) (s : str) :
  fst (span p s) ++ snd (span p s) = s.
Proof.
  induction s as [|c s IH]; simpl; [reflexivity |].
  destruct (p c); [| reflexivity].
  destruct (span p s); simpl in *. now rewrite IH.
Qed.

Lemma field_ends (re : str -> option Z) (s rest : str) (v : Z) :
  field re s = Some (v, rest) -> ends_in_z rest -> ends_in_z s.
Proof.
  unfold field. intros H Hz.
  pose proof (span_app is_field_char s) as E.
  destruct (span is_field_char s) as [run rest']; simpl in *.
  destruct (re run); simpl in H; [| discriminate].
  inversion H; subst. now apply ends_in_z_app.
Qed.

Lemma expect_ends (c : ascii) (s rest : str) :
  expect c s = Some rest -> ends_in_z rest -> ends_in_z s.
Proof.
  unfold expect. intros H Hz. destruct s as [|d s]; [discriminate |].
  destruct (Ascii.eqb _ _); [| discriminate].
  inversion H; subst. now apply (ends_in_z_app [d]).
Qed.

Lemma expect_z_last (s : str) : expect "Z" s = Some [] -> ends_in_z s.
Proof.
  unfold expect. destruct s as [|d s]; [discriminate |].
  destruct (Ascii.eqb _ _) eqn:E; [| discriminate].
  intros H. inversion H; subst. apply Ascii.eqb_eq in E.
  split; [discriminate | exact E].
Qed.

Lemma bind_some {A B : Type} (o : option A) (k : A -> option B) (r : B) :
  bind o k = Some r -> exists a, o = Some a /\ k a = Some r.
Proof. destruct o as [a|]; simpl; [eauto | discriminate]. Qed.

(** Whatever [strptime] accepts ends with the [Z] of the format. *)
Lemma strptime_ends_in_z (s : str) (dt : datetime) :
  strptime s = Some dt -> ends_in_z s.
Proof.
  unfold strptime. intros H.
  repeat match goal with
         | H : bind _ _ = Some _ |- _ =>
             apply bind_some in H; destruct H as (? & ? & H)
         | H : (let '(_, _) := ?x in _) = Some _ |- _ => destruct x
         end.
  match goal with
  | H : match ?x with [] => _ | _ :: _ => _ end = Some _ |- _ =>
      destruct x; [clear H | discriminate H]
  end.
  repeat match goal with
         | H : field _ _ = Some _ |- _ => apply (field_ends _ _ H); clear H
         | H : expect _ _ = Some (_ :: _) |- _ => fail 1
         | H : expect _ ?s = Some ?r |- ends_in_z ?s =>
             first [ exact (expect_z_last _ H)
                   | apply (expect_ends _ _ H); clear H ]
         end.
Qed.

Lemma last_map (f : ascii -> ascii) (s : str) (d : ascii) :
  s <> [] -> last (map f s) (f d) = f (last s d).
Proof.
  induction s as [|x s IH]; intros H; [contradiction |].
  destruct s as [|y s]; [reflexivity |].
  change (last (map f (y :: s)) (f d) = f (last (y :: s) d)).
  apply IH. discriminate.
Qed.

(** A name with an archive extension, in whatever case, does not end in
    [Z] or [z], and neither does what is left of it once leading
    characters are cut off. *)
Lemma zip_name_tail_not_z (fname : str) (n : nat) :
  endswith (lower fname) (lit ".zip") = true -> ~ ends_in_z (skipn n fname).
Proof.
  intros Hzip [Hne Hz].
  apply endswith_split in Hzip as [t Ht].
  assert (Hf : fname <> []) by (intros ->; now destruct n).
  assert (Hlast : last fname " "%char = last (skipn n fname) " "%char).
  { rewrite <- (firstn_skipn n fname) at 1. now apply last_app_r. }
  assert (Hp : lower_char (last fname " "%char) = "p"%char).
  { change (" "%char) with (lower_char " "%char) at 1.
    unfold lower in Ht. rewrite <- (last_map lower_char) by exact Hf.
    change (lower_char " ") with " "%char. rewrite Ht.
    rewrite last_app_r by discriminate. reflexivity. }
  rewrite Hlast, Hz in Hp. discriminate.
Qed.

End ParsedShape.

(** ** The sort key *)
Section SortKey.

Variables (utcoffset : Z) (d : directory) (output_dir prefix : str).

(** What [file_key] cuts off the front of the name is a number of leading
    characters, the ones the specification names. *)
Lemma code_strip_prefix (fname : str) :
  (if truthy prefix && startswith fname (prefix ++ lit "_")
   then PyStr.slice_from (List.length prefix + 1) fname
   else if truthy prefix && startswith fname prefix
   then PyStr.slice_from (List.length prefix) fname
   else fname)
  = spec_strip_prefix prefix fname
  /\ exists n, spec_strip_prefix prefix fname = skipn n fname.
Proof.
  unfold spec_strip_prefix, PyStr.slice_from.
  destruct prefix as [|c p]; simpl truthy; cbn [andb].
  - split; [reflexivity | now exists 0%nat].
  - rewrite length_app. simpl (List.length (lit "_")).
    split; [reflexivity |].
    destruct (startswith fname ((c :: p) ++ lit "_")); [eauto |].
    destruct (startswith fname (c :: p)); [eauto | now exists 0%nat].
Qed.

Lemma stamp_text_spec_prefix (fname : str) :
  stamp_text prefix fname
  = rsplit1_head (lit ".zip") (spec_strip_prefix prefix fname).
Proof.
  unfold stamp_text. now rewrite (proj1 (code_strip_prefix fname)).
Qed.

(** On what is left of a name in [.zip], cutting before the last [.zip] is
    stripping the trailing [.zip]. *)
Lemma rsplit_is_strip_suffix (s : str) (n : nat) :
  endswith s (lit ".zip") = true ->
  rsplit1_head (lit ".zip") (skipn n s) = spec_strip_suffix (skipn n s).
Proof.
  intros H. apply endswith_split in H as [t ->].
  rewrite skipn_app. unfold spec_strip_suffix.
  destruct (Nat.le_gt_cases n (List.length t)) as [Hn | Hn].
  - replace (n - List.length t)%nat with 0%nat by lia.
    cbn [skipn]. rewrite rsplit1_head_suffix, endswith_app.
    rewrite length_app, Nat.add_sub.
    rewrite firstn_app, Nat.sub_diag, firstn_all.
    cbn [firstn]. now rewrite app_nil_r.
  - rewrite skipn_all2 by lia. cbn [app].
    destruct (n - List.length t)%nat as [|[|[|[|k]]]] eqn:E;
      [lia | reflexivity | reflexivity | reflexivity |].
    change (skipn (S (S (S (S k)))) (lit ".zip")) with (@skipn ascii k []).
    rewrite skipn_nil. reflexivity.
Qed.

Lemma file_key_parsed (fname : str) (dt : datetime) (t : Z) :
  strptime (stamp_text prefix fname) = Some dt ->
  timestamp_naive utcoffset dt = Some t ->
  file_key utcoffset d output_dir prefix fname = t.
Proof. intros H Ht. unfold file_key. now rewrite H, Ht. Qed.

Lemma file_key_unconverted (fname : str) (dt : datetime) :
  strptime (stamp_text prefix fname) = Some dt ->
  timestamp_naive utcoffset dt = None ->
  file_key utcoffset d output_dir prefix fname
  = mtime_or_zero d output_dir fname.
Proof. intros H Ht. unfold file_key. now rewrite H, Ht. Qed.

Lemma file_key_fallback (fname : str) :
  strptime (stamp_text prefix fname) = None ->
  file_key utcoffset d output_dir prefix fname
  = mtime_or_zero d output_dir fname.
Proof. intros H. unfold file_key. now rewrite H. Qed.

(** C6, amended. For a name that ends in the lower-case [.zip], the string
    [file_key] parses is the name with the prefix stripped (the prefix and
    ["_"] if the name starts with them, else the prefix if it starts with
    it, nothing for an empty prefix) and the trailing [.zip] stripped; if
    that string parses and [timestamp] converts the parsed date and time,
    the key is that instant; if it parses and [timestamp] raises, the key
    is the fallback, the modification time or 0. *)
Theorem C6_key_of_lower_case_zip_names (fname : str) :
  endswith fname (lit ".zip") = true ->
  stamp_text prefix fname = spec_stamp_text prefix fname
  /\ (forall dt t,
        strptime (spec_stamp_text prefix fname) = Some dt ->
        timestamp_naive utcoffset dt = Some t ->
        file_key utcoffset d output_dir prefix fname = t)
  /\ (forall dt,
        strptime (spec_stamp_text prefix fname) = Some dt ->
        timestamp_naive utcoffset dt = None ->
        file_key utcoffset d output_dir prefix fname
        = mtime_or_zero d output_dir fname).
Proof.
  intros Hzip.
  assert (E : stamp_text prefix fname = spec_stamp_text prefix fname).
  { rewrite stamp_text_spec_prefix. unfold spec_stamp_text.
    destruct (code_strip_prefix fname) as [_ [n ->]].
    now apply rsplit_is_strip_suffix. }
  split; [exact E |]. split.
  - intros dt t Hdt Ht. apply file_key_parsed with (dt := dt); [| exact Ht].
    now rewrite E.
  - intros dt Hdt Ht.
    apply file_key_unconverted with (dt := dt); [| exact Ht].
    now rewrite E.
Qed.

(** C10, amended. A name whose extension is [.zip] in another case than
    lower case is a candidate; if it holds no lower-case [.zip] anywhere,
    the string handed to the parser never parses and the key is the
    fallback (the modification time, or 0). *)
Theorem C10_other_case_extension_falls_back (fname : str) :
  endswith (lower fname) (lit ".zip") = true ->
  (if truthy prefix then startswith fname prefix else true) = true ->
  contains (lit ".zip") fname = false ->
  is_candidate prefix fname = true
  /\ endswith fname (lit ".zip") = false
  /\ strptime (stamp_text prefix fname) = None
  /\ file_key utcoffset d output_dir prefix fname
     = mtime_or_zero d output_dir fname.
Proof.
  intros Hext Hpre Hno.
  assert (Hparse : strptime (stamp_text prefix fname) = None).
  { rewrite stamp_text_spec_prefix.
    destruct (code_strip_prefix fname) as [_ [n ->]].
    rewrite rsplit1_head_absent by now apply contains_skipn.
    destruct (strptime (skipn n fname)) as [dt|] eqn:E; [| reflexivity].
    apply strptime_ends_in_z in E.
    now apply (zip_name_tail_not_z fname n) in E. }
  split; [unfold is_candidate; now rewrite Hext, Hpre |].
  split.
  { destruct (endswith fname (lit ".zip")) eqn:E; [| reflexivity].
    apply endswith_split in E as [t ->].
    assert (contains (lit ".zip") (t ++ lit ".zip") = true).
    { apply contains_iff. exists t, []. now rewrite app_nil_r. }
    congruence. }
  split; [exact Hparse |].
  now apply file_key_fallback.
Qed.

End SortKey.

(** ** When the stamp converts *)
Section Conversion.

Lemma days_before_month_bounds (y m : Z) :
  1 <= m <= 12 -> 0 <= days_before_month y m <= 335.
Proof.
  intros Hm. unfold days_before_month.
  assert (0 <= (if (2 <? m) && is_leap y then 1 else 0) <= 1)
    by (destruct ((2 <? m) && is_leap y); lia).
  assert (Hc : m = 1 \/ m = 2 \/ m = 3 \/ m = 4 \/ m = 5 \/ m = 6 \/ m = 7
               \/ m = 8 \/ m = 9 \/ m = 10 \/ m = 11 \/ m = 12) by lia.
  destruct Hc as [-> | [-> | [-> | [-> | [-> | [-> | [-> | [-> | [-> | [->
    | [-> | ->]]]]]]]]]]]; simpl nth; lia.
Qed.

Lemma days_before_year_bounds (y : Z) :
  2 <= y <= 9998 -> 365 <= days_before_year y <= 3651329.
Proof.
  intros Hy. unfold days_before_year.
  Z.div_mod_to_equations. lia.
Qed.

(** The value of [timestamp], when it returns one. *)
Lemma timestamp_naive_some (utcoffset : Z) (dt : datetime) (t : Z) :
  timestamp_naive utcoffset dt = Some t ->
  t = timestamp_utc dt - utcoffset * 1000000.
Proof.
  unfold timestamp_naive, timestamp_utc. cbv zeta.
  destruct (in_years _ && in_years _); [| discriminate].
  now intros [= <-].
Qed.

(** In a zone within a day of UTC, [timestamp] converts every valid date
    and time of the years 2 to 9998. *)
Lemma timestamp_naive_converts (utcoffset : Z) (dt : datetime) :
  valid dt = true -> 2 <= year dt <= 9998 ->
  -86400 <= utcoffset <= 86400 ->
  timestamp_naive utcoffset dt
  = Some (timestamp_utc dt - utcoffset * 1000000).
Proof.
  intros Hv Hy Ho. split_valid Hv.
  pose proof (days_before_year_bounds Hy).
  pose proof (@days_before_month_bounds (year dt) (month dt)).
  pose proof (days_in_month_le_31 (year dt) (month dt)).
  unfold timestamp_naive, timestamp_utc. cbv zeta.
  replace (in_years (seconds_of dt + utcoffset)) with true.
  - replace (in_years (seconds_of dt - 86400)) with true; [reflexivity |].
    symmetry. unfold in_years, seconds_of, ymd2ord.
    apply andb_true_iff. split; [apply Z.leb_le | apply Z.ltb_lt]; lia.
  - symmetry. unfold in_years, seconds_of, ymd2ord.
    apply andb_true_iff. split; [apply Z.leb_le | apply Z.ltb_lt]; lia.
Qed.

End Conversion.

(** ** The fallback key, and the key of the archiver's names *)
Section FallbackAndNaming.

(** C3, amended. When the string does not parse, the key is the file's
    modification time; when that is unavailable too, the key is 0, the
    epoch: the file then ranks at or below every file whose key is not
    before the epoch, and above every file whose key is before it. *)
Theorem C3_fallback_key (utcoffset : Z) (d : directory)
    (output_dir prefix fname : str) :
  strptime (stamp_text prefix fname) = None ->
  let key := file_key utcoffset d output_dir prefix in
  let mtime := getmtime d output_dir (join output_dir fname) in
  (forall t, mtime = Some t -> key fname = t)
  /\ (mtime = None ->
      key fname = 0
      /\ (forall g, 0 <= key g -> key fname <= key g)
      /\ (forall g, key g < 0 -> key g < key fname)).
Proof.
  intros Hparse key mtime.
  assert (Hkey : key fname = mtime_or_zero d output_dir fname)
    by now apply file_key_fallback.
  unfold mtime_or_zero in Hkey. fold mtime in Hkey.
  split.
  - intros t Ht. now rewrite Hkey, Ht.
  - intros Hnone. rewrite Hnone in Hkey.
    split; [exact Hkey |].
    split; intros g Hg; now rewrite Hkey.
Qed.

(** The archiver's name is cut back to the stamp it was built from. *)
Lemma stamp_text_zip_name (now : datetime) (prefix : str) :
  stamp_text prefix (zip_name now prefix) = strftime now.
Proof.
  unfold stamp_text, zip_name, PyStr.slice_from.
  destruct prefix as [|c p]; simpl truthy; cbn [andb].
  - cbn [app]. apply rsplit1_head_suffix.
  - rewrite startswith_app.
    replace (List.length (c :: p) + 1)%nat
      with (List.length ((c :: p) ++ lit "_"))
      by (rewrite length_app; reflexivity).
    rewrite skipn_exact.
    apply rsplit1_head_suffix.
Qed.

(** The key of an archive named by the archiver in a year of four digits
    (but the last), in a zone within a day of UTC: its stamp, read as local
    time. *)
Lemma file_key_zip_name (utcoffset : Z) (d : directory)
    (output_dir prefix : str) (now : datetime) :
  valid now = true -> 1000 <= year now <= 9998 ->
  -86400 <= utcoffset <= 86400 ->
  file_key utcoffset d output_dir prefix (zip_name now prefix)
  = timestamp_utc now - utcoffset * 1000000.
Proof.
  intros Hv Hy Ho. apply file_key_parsed with (dt := now).
  - rewrite stamp_text_zip_name. apply strptime_strftime; [exact Hv | lia].
  - apply timestamp_naive_converts; [exact Hv | lia | exact Ho].
Qed.

End FallbackAndNaming.

(** ** The claims on concrete inputs *)
Section OnConcreteInputs.

(** Three candidates, one to keep: the June archive stays, the pass calls
    [os.remove] on the January archive and on the one of no stamp. *)
Lemma C1_keeps_the_newest_on_three_archives :
  let o := cleanup_old_backups 0 (Listing three_archives) out (lit "a") 1 in
  List.length (candidates (lit "a") (map fst three_archives)) = 3%nat
  /\ Retention.slice_to 1
       (ranked 0 (Listing three_archives) out (lit "a")
               (map fst three_archives))
     = [june]
  /\ attempts (out_trace o) = [join out january; join out garbage]
  /\ List.length (attempts (out_trace o)) = (3 - Z.to_nat 1)%nat.
Proof.
  assert (H : 0 < 1 < Z.of_nat
                (List.length (candidates (lit "a") (map fst three_archives))))
    by (vm_compute; split; reflexivity).
  pose proof (@C1_keeps_the_newest 0 out (lit "a") three_archives 1 H)
    as (_ & _ & Hcount & _).
  split; [reflexivity |]. split; [reflexivity |]. split; [reflexivity |].
  exact Hcount.
Defined.

(** [keep = 0] on a directory with three candidates. *)
Lemma C5_zero_keep_on_three_archives :
  cleanup_old_backups 0 (Listing three_archives) out (lit "a") 0
  = mk_outcome Returns (Listing three_archives) [].
Proof.
  apply (@C5_nonpositive_keep_returns_at_once 0 out (lit "a")
           (Listing three_archives) 0).
  lia.
Defined.

(** The pass over the directory with an archive that cannot be removed, one
    archive to keep: the failure is reported, the file after it is removed
    all the same, and the archive that could not be removed stays. *)
Lemma C7_locked_archive_is_reported :
  let o := cleanup_old_backups 0 (Listing with_locked_archive) out (lit "a")
             1 in
  out_exit o = Returns
  /\ out_trace o
     = [ Print_removing (join out january);
         Os_remove (join out january) true;
         Print_removing (join out locked);
         Os_remove (join out locked) false;
         Print_failed (join out locked);
         Print_removing (join out garbage);
         Os_remove (join out garbage) true ]
  /\ In (join out locked) (reported (out_trace o))
  /\ out_dir o
     = Listing [ (locked, mk_info (Some 1701388805000000) false);
                 (june, mk_info (Some 1717200005000000) true) ].
Proof.
  intros o.
  assert (H1 : 0 < 1) by lia.
  assert (H2 : Retention.slice_from 1
                 (ranked 0 (Listing with_locked_archive) out (lit "a")
                         (map fst with_locked_archive))
               = [january] ++ locked :: [garbage]) by reflexivity.
  assert (H3 : os_remove (Listing with_locked_archive) out (join out locked)
               = None) by reflexivity.
  pose proof (@C7_failed_removal_does_not_abort 0 out (lit "a")
                with_locked_archive 1 [january] [garbage] locked H1 H2 H3)
    as (Hexit & _ & _ & Hin & _).
  split; [exact Hexit |]. split; [reflexivity |].
  split; [exact Hin | reflexivity].
Defined.

(** C3 as stated fails: a file with neither stamp nor modification time
    gets the key 0, which is newer than the key of an archive stamped 1960;
    it is ranked first, and with one archive to keep it is the stamped
    archive that is removed. *)
Lemma C3_key_zero_is_not_the_oldest :
  let d := Listing old_and_lost in
  strptime (stamp_text (lit "a") lost) = None
  /\ getmtime d out (join out lost) = None
  /\ file_key 0 d out (lit "a") lost = 0
  /\ file_key 0 d out (lit "a") stamped_1960 = -315619200000000
  /\ ranked 0 d out (lit "a") (map fst old_and_lost) = [lost; stamped_1960]
  /\ attempts (out_trace (cleanup_old_backups 0 d out (lit "a") 1))
     = [join out stamped_1960].
Proof. vm_compute. repeat split; reflexivity. Qed.

(** The fallback on a file of no stamp whose modification time is known. *)
Lemma C3_fallback_key_on_garbage :
  file_key 0 (Listing three_archives) out (lit "a") garbage
  = 1690000000000000.
Proof.
  assert (H : strptime (stamp_text (lit "a") garbage) = None)
    by reflexivity.
  pose proof (@C3_fallback_key 0 (Listing three_archives) out (lit "a")
                garbage H) as [Hm _].
  apply Hm. reflexivity.
Defined.

(** C4 fails on the code: an archive made at 2024-01-01T00:00:00 UTC on a
    machine one hour east of UTC gets a key one hour before the instant in
    its name, and so ranks below a file of no stamp that was modified half
    an hour before the archive was made: with one archive to keep, the
    pass removes the archive just made. *)
Theorem C4_stamp_is_read_as_local_time :
  let d := Listing fresh_and_manual in
  let fresh := zip_name new_year (lit "a") in
  fresh = lit "a_2024-01-01T00-00-00.000000Z.zip"
  /\ timestamp_utc new_year = 1704067200000000
  /\ file_key 3600 d out (lit "a") fresh = 1704063600000000
  /\ file_key 3600 d out (lit "a") manual = 1704065400000000
  /\ attempts (out_trace (cleanup_old_backups 3600 d out (lit "a") 1))
     = [join out fresh].
Proof. vm_compute. repeat split; reflexivity. Qed.

(** C2 fails on the code: the local paths built from the names
    ["../../evil.sh"] and ["/etc/cron.d/job"] leave the target directory,
    and the walker creates directories and fetches files there. *)
Theorem C2_remote_names_escape_the_target :
  let r := download_sftp_dir 2 hostile (lit "/data") target in
  fst r
  = [ Makedirs target;
      Makedirs (lit "/tmp/sftp_download_x/data/../..");
      Print_downloading (lit "/data/../../evil.sh");
      Get (lit "/data/../../evil.sh")
          (lit "/tmp/sftp_download_x/data/../../evil.sh");
      Makedirs (lit "/etc/cron.d");
      Print_downloading (lit "/data//etc/cron.d/job");
      Get (lit "/data//etc/cron.d/job") (lit "/etc/cron.d/job") ]
  /\ snd r = None
  /\ join target (lit "../../evil.sh")
     = lit "/tmp/sftp_download_x/data/../../evil.sh"
  /\ is_under target (join target (lit "../../evil.sh")) = false
  /\ join target (lit "/etc/cron.d/job") = lit "/etc/cron.d/job"
  /\ is_under target (join target (lit "/etc/cron.d/job")) = false.
Proof. vm_compute. repeat split; reflexivity. Qed.

(** C6 as stated fails: on a candidate with [.zip] before an upper-case
    extension the string parsed is cut at the inner [.zip], not at the
    trailing extension, and the key is the stamp although the name with
    prefix and trailing extension stripped does not parse.  And on an
    archive stamped with the first day of the calendar the stripped name
    parses, but [timestamp] raises and the key is the modification time. *)
Lemma C6_inner_zip_is_cut_instead :
  let d := Listing with_double_extension in
  let d' := Listing ends_of_the_calendar in
  is_candidate (lit "a") double_extension = true
  /\ stamp_text (lit "a") double_extension
     = lit "2024-06-01T00-00-00.000000Z"
  /\ spec_stamp_text (lit "a") double_extension
     = lit "2024-06-01T00-00-00.000000Z.zip.ZIP"
  /\ strptime (spec_stamp_text (lit "a") double_extension) = None
  /\ file_key 0 d out (lit "a") double_extension = 1717200000000000
  /\ getmtime d out (join out double_extension) = Some 1500000000000000
  /\ is_candidate (lit "a") first_day = true
  /\ strptime (spec_stamp_text (lit "a") first_day)
     = Some (mk_datetime 1 1 1 0 0 0 0)
  /\ file_key 0 d' out (lit "a") first_day = 1500000000000000
  /\ getmtime d' out (join out first_day) = Some 1500000000000000.
Proof. vm_compute. repeat split; reflexivity. Qed.

(** Stamps that parse and that [timestamp] does not convert: the first day
    of the calendar in every zone, the last evening in a zone east of UTC.
    The key is the fallback. *)
Lemma stamps_that_do_not_convert :
  let d := Listing ends_of_the_calendar in
  strptime (stamp_text (lit "a") first_day)
  = Some (mk_datetime 1 1 1 0 0 0 0)
  /\ timestamp_naive 0 (mk_datetime 1 1 1 0 0 0 0) = None
  /\ timestamp_naive (-43200) (mk_datetime 1 1 1 0 0 0 0) = None
  /\ timestamp_naive 43200 (mk_datetime 1 1 1 0 0 0 0) = None
  /\ file_key 0 d out (lit "a") first_day = 1500000000000000
  /\ strptime (stamp_text (lit "a") last_evening)
     = Some (mk_datetime 9999 12 31 23 30 0 0)
  /\ timestamp_naive 3600 (mk_datetime 9999 12 31 23 30 0 0) = None
  /\ file_key 3600 d out (lit "a") last_evening = 0
  /\ file_key 0 d out (lit "a") last_evening = 253402299000000000.
Proof. vm_compute. repeat split; reflexivity. Qed.

(** The June archive of the scenario: its name ends in [.zip], the key is
    the stamp. *)
Lemma C6_key_of_the_june_archive :
  stamp_text (lit "a") june = spec_stamp_text (lit "a") june
  /\ file_key 0 (Listing three_archives) out (lit "a") june
     = 1717200000000000.
Proof.
  assert (H : endswith june (lit ".zip") = true) by reflexivity.
  pose proof (@C6_key_of_lower_case_zip_names 0 (Listing three_archives)
                out (lit "a") june H) as (Htext & Hkey & _).
  split; [exact Htext |].
  apply (Hkey (mk_datetime 2024 6 1 0 0 0 0)); reflexivity.
Defined.

(** C10 as stated fails: a candidate with a mixed-case extension whose name
    holds a lower-case [.zip] before it does parse, and its key is the
    stamp, not the modification time. *)
Lemma C10_mixed_case_name_that_parses :
  let d := Listing with_mixed_extension in
  is_candidate (lit "a") mixed_extension = true
  /\ endswith mixed_extension (lit ".zip") = false
  /\ strptime (stamp_text (lit "a") mixed_extension)
     = Some (mk_datetime 2024 1 1 0 0 0 0)
  /\ file_key 0 d out (lit "a") mixed_extension = 1704067200000000
  /\ mtime_or_zero d out mixed_extension = 1500000000000000.
Proof. vm_compute. repeat split; reflexivity. Qed.

(** An upper-case extension and no [.zip] in the name: the key is the
    modification time. *)
Lemma C10_upper_case_name_falls_back :
  let fname := lit "a_2024-06-01T00-00-00.000000Z.ZIP" in
  let d := Listing [(fname, mk_info (Some 1500000000000000) true)] in
  is_candidate (lit "a") fname = true
  /\ file_key 0 d out (lit "a") fname = 1500000000000000.
Proof.
  intros fname d.
  assert (H1 : endswith (lower fname) (lit ".zip") = true) by reflexivity.
  assert (H2 : (if truthy (lit "a") then startswith fname (lit "a") else true)
               = true) by reflexivity.
  assert (H3 : contains (lit ".zip") fname = false) by reflexivity.
  pose proof (@C10_other_case_extension_falls_back 0 d out (lit "a") fname
                H1 H2 H3) as (Hc & _ & _ & Hk).
  split; [exact Hc |]. rewrite Hk. reflexivity.
Defined.

End OnConcreteInputs.

(** ** Names that stay inside the target *)
Section SafeNames.

Lemma eqb_refl (a : str) : PyStr.eqb a a = true.
Proof. now apply eqb_eq. Qed.

Lemma split_not_nil (p : str) : PosixPath.split p <> [].
Proof.
  induction p as [|c p IH]; simpl; [discriminate |].
  destruct (Ascii.eqb c sep); [discriminate |].
  destruct (PosixPath.split p); discriminate.
Qed.

Lemma split_plain (name : str) :
  plain name = true -> PosixPath.split name = [name].
Proof.
  unfold plain.
  induction name as [|c name IH]; simpl; intros H; [reflexivity |].
  apply andb_true_iff in H as [Hc H].
  apply negb_true_iff in Hc. rewrite Hc, (IH H). reflexivity.
Qed.

Lemma split_at_sep (a b : str) :
  PosixPath.split (a ++ sep :: b) = PosixPath.split a ++ PosixPath.split b.
Proof.
  induction a as [|c a IH]; simpl.
  - reflexivity.
  - rewrite IH. destruct (Ascii.eqb c sep); [reflexivity |].
    pose proof (split_not_nil a).
    destruct (PosixPath.split a); [contradiction | reflexivity].
Qed.

Lemma is_prefix_app (a b : list str) : is_prefix a (a ++ b) = true.
Proof.
  induction a as [|x a IH]; simpl; [reflexivity |].
  now rewrite eqb_refl.
Qed.

Lemma resolve_snoc (ws : list str) (name : str) :
  rev (fold_left resolve_step (ws ++ [name]) [])
  = rev (resolve_step (fold_left resolve_step ws []) name).
Proof. now rewrite fold_left_app. Qed.

(** A name that is not empty, not ["."], not [".."] and holds no ['/']
    gives a local path below the directory it is joined to. *)
Lemma plain_name_stays_under (root name : str) :
  plain name = true -> name <> [] -> is_dot_name name = false ->
  is_under root (join root name) = true.
Proof.
  intros Hplain Hne Hdot.
  assert (Hstep : forall st, resolve_step st name = name :: st).
  { intros st. unfold resolve_step. unfold is_dot_name in Hdot.
    apply orb_false_iff in Hdot as [H1 H2]. rewrite H1, H2.
    destruct (PyStr.eqb name []) eqn:E; [| reflexivity].
    apply eqb_eq in E. contradiction. }
  assert (Hstart : startswith name [sep] = false).
  { destruct name as [|c name]; [reflexivity |].
    unfold plain in Hplain. simpl in *.
    apply andb_true_iff in Hplain as [Hc _].
    apply negb_true_iff in Hc. now rewrite Hc. }
  unfold is_under, join. rewrite Hstart.
  destruct (negb (truthy root) || endswith root [sep]) eqn:E.
  - apply orb_true_iff in E as [E | E].
    + destruct root; [reflexivity | discriminate].
    + apply endswith_split in E as [t ->].
      rewrite <- app_assoc. cbn [app].
      unfold resolve. rewrite !split_at_sep, (split_plain name Hplain).
      change (PosixPath.split []) with [@nil ascii].
      rewrite !resolve_snoc, Hstep. simpl rev.
      apply is_prefix_app.
  - unfold resolve. rewrite split_at_sep, (split_plain name Hplain).
    rewrite resolve_snoc, Hstep. simpl rev.
    apply is_prefix_app.
Qed.

End SafeNames.

(** * Further properties of the retention pass *)

Unset Implicit Arguments.

Section RetentionMore.

Variables (utcoffset : Z) (output_dir prefix : str).

Lemma ranked_perm (d : directory) (names : list str) :
  Permutation (ranked utcoffset d output_dir prefix names)
              (candidates prefix names).
Proof. apply list_sort_reverse_perm. Qed.

(** X1. With at least as many archives to keep as there are candidates, the
    pass removes nothing: no call of [os.remove], the directory as it
    was. *)
Theorem keep_covers_all_candidates (es : list (str * file_info)) (keep : Z) :
  Z.of_nat (List.length (candidates prefix (map fst es))) <= keep ->
  cleanup_old_backups utcoffset (Listing es) output_dir prefix keep
  = mk_outcome Returns (Listing es) [].
Proof.
  intros Hk. unfold cleanup_old_backups.
  destruct (keep <=? 0) eqn:E; [reflexivity |].
  apply Z.leb_gt in E. simpl.
  unfold Retention.slice_from.
  destruct (keep <? 0) eqn:E'; [apply Z.ltb_lt in E'; lia |].
  rewrite skipn_all2; [reflexivity |].
  rewrite (Permutation_length (ranked_perm (Listing es) (map fst es))).
  lia.
Qed.

Lemma attempted_paths_are_candidates (d : directory) (keep : Z) (p : str) :
  In p (attempts (out_trace
          (cleanup_old_backups utcoffset d output_dir prefix keep))) ->
  0 < keep
  /\ exists f,
       In f (map fst (entries_of d))
       /\ is_candidate prefix f = true
       /\ p = join output_dir f.
Proof.
  unfold cleanup_old_backups.
  destruct (keep <=? 0) eqn:Ek; [intros [] |].
  apply Z.leb_gt in Ek. intros Hin. split; [exact Ek |]. revert Hin.
  destruct d as [| | es]; simpl; [intros [] | intros [] |].
  pose proof (remove_loop_attempts output_dir
                (Retention.slice_from keep
                   (ranked utcoffset (Listing es) output_dir prefix
                           (map fst es)))
                (Listing es)) as Hatt.
  destruct (remove_loop _ _ _) as [d' t]; simpl in *.
  rewrite Hatt. intros Hin.
  apply in_map_iff in Hin as (f & <- & Hf).
  exists f.
  assert (Hc : In f (candidates prefix (map fst es))).
  { eapply Permutation_in; [apply ranked_perm |].
    rewrite <- (slices_split keep). apply in_or_app. right. exact Hf. }
  apply filter_In in Hc as [Hn Hc]. auto.
Qed.

(** X2. Every path the pass calls [os.remove] on is the path of a file of the
    directory whose name passed the candidate test: a file without the
    archive extension, or one that does not start with the prefix, is never
    touched. *)
Theorem only_candidates_are_removed (d : directory) (keep : Z) (p : str) :
  In p (attempts (out_trace
          (cleanup_old_backups utcoffset d output_dir prefix keep))) ->
  exists f,
    In f (map fst (entries_of d))
    /\ is_candidate prefix f = true
    /\ p = join output_dir f.
Proof. intros H. now apply attempted_paths_are_candidates in H. Qed.

End RetentionMore.

(** ** The directory after the pass *)
Section AfterThePass.

Variables (utcoffset : Z) (output_dir prefix : str).

Lemma plain_not_absolute (name : str) :
  plain name = true -> startswith name [sep] = false.
Proof.
  destruct name as [|c name]; [reflexivity |].
  unfold plain. simpl. intros H.
  apply andb_true_iff in H as [Hc _].
  apply negb_true_iff in Hc. now rewrite Hc.
Qed.

(** Two names without ['/'] joined to the same directory give different
    paths. *)
Lemma join_plain_injective (a b : str) :
  plain a = true -> plain b = true ->
  join output_dir a = join output_dir b -> a = b.
Proof.
  intros Ha Hb. unfold join.
  rewrite (plain_not_absolute a Ha), (plain_not_absolute b Hb).
  destruct (negb (truthy output_dir) || endswith output_dir [sep]);
    intros H; apply app_inv_head in H; congruence.
Qed.

Lemma names_path_plain (f : str) (e : str * file_info) :
  plain f = true -> plain (fst e) = true ->
  names_path output_dir (join output_dir f) e = PyStr.eqb (fst e) f.
Proof.
  intros Hf He. unfold names_path.
  destruct (PyStr.eqb (fst e) f) eqn:E.
  - apply eqb_eq in E. rewrite E. apply eqb_refl.
  - destruct (PyStr.eqb (join output_dir (fst e)) (join output_dir f)) eqn:E';
      [| reflexivity].
    apply eqb_eq in E'. apply join_plain_injective in E'; try assumption.
    rewrite E', eqb_refl in E. discriminate.
Qed.

Lemma find_named (f : str) (es : list (str * file_info)) :
  plain f = true -> plain_names es ->
  find (names_path output_dir (join output_dir f)) es
  = find (fun e => PyStr.eqb (fst e) f) es.
Proof.
  intros Hf Hes. induction Hes as [|e es He Hes IH]; simpl; [reflexivity |].
  rewrite names_path_plain by assumption.
  now rewrite IH.
Qed.

Lemma remove_first_named (f : str) (es : list (str * file_info)) :
  plain f = true -> plain_names es ->
  remove_first (names_path output_dir (join output_dir f)) es
  = remove_first (fun e => PyStr.eqb (fst e) f) es.
Proof.
  intros Hf Hes. induction Hes as [|e es He Hes IH]; simpl; [reflexivity |].
  rewrite names_path_plain by assumption.
  now rewrite IH.
Qed.

Lemma filter_absent (f : str) (es : list (str * file_info)) :
  ~ In f (map fst es) ->
  filter (fun e => negb (PyStr.eqb (fst e) f)) es = es.
Proof.
  induction es as [|e es IH]; simpl; intros H; [reflexivity |].
  destruct (PyStr.eqb (fst e) f) eqn:E.
  - apply eqb_eq in E. tauto.
  - simpl. f_equal. apply IH. tauto.
Qed.

(** Where names are distinct, removing the first file of a name removes the
    only one. *)
Lemma remove_first_is_filter (f : str) (es : list (str * file_info)) :
  NoDup (map fst es) ->
  remove_first (fun e => PyStr.eqb (fst e) f) es
  = filter (fun e => negb (PyStr.eqb (fst e) f)) es.
Proof.
  induction es as [|e es IH]; simpl; intros Hnd; [reflexivity |].
  inversion Hnd as [|? ? Hnotin Hnd']; subst.
  destruct (PyStr.eqb (fst e) f) eqn:E; simpl.
  - apply eqb_eq in E. subst f. symmetry. now apply filter_absent.
  - f_equal. now apply IH.
Qed.

Lemma find_some_named (f : str) (es : list (str * file_info))
    (e : str * file_info) :
  find (fun e => PyStr.eqb (fst e) f) es = Some e -> In e es /\ fst e = f.
Proof.
  intros H. apply find_some in H as [Hin He].
  apply eqb_eq in He. auto.
Qed.

Lemma find_none_named (f : str) (es : list (str * file_info)) :
  find (fun e => PyStr.eqb (fst e) f) es = None -> ~ In f (map fst es).
Proof.
  intros H Hin. apply in_map_iff in Hin as (e & He & Hin).
  apply (find_none _ _ H) in Hin. simpl in Hin.
  rewrite He, eqb_refl in Hin. discriminate.
Qed.

Lemma NoDup_names_unique (es : list (str * file_info))
    (e e' : str * file_info) :
  NoDup (map fst es) -> In e es -> In e' es -> fst e = fst e' -> e = e'.
Proof.
  induction es as [|x es IH]; simpl; intros Hnd He He' Hf; [contradiction |].
  inversion Hnd as [|? ? Hnotin Hnd']; subst.
  destruct He as [-> | He], He' as [-> | He']; try reflexivity.
  - exfalso. apply Hnotin. rewrite Hf. now apply in_map.
  - exfalso. apply Hnotin. rewrite <- Hf. now apply in_map.
  - now apply IH.
Qed.

Lemma NoDup_names_filter (p : str * file_info -> bool)
    (es : list (str * file_info)) :
  NoDup (map fst es) -> NoDup (map fst (filter p es)).
Proof.
  induction es as [|e es IH]; simpl; intros Hnd; [constructor |].
  inversion Hnd as [|? ? Hnotin Hnd']; subst.
  destruct (p e); simpl; [| now apply IH].
  constructor; [| now apply IH].
  intros Hin. apply Hnotin.
  apply in_map_iff in Hin as (x & Hx & Hin).
  apply filter_In in Hin as [Hin _].
  rewrite <- Hx. now apply in_map.
Qed.

Lemma plain_names_filter (p : str * file_info -> bool)
    (es : list (str * file_info)) :
  plain_names es -> plain_names (filter p es).
Proof.
  unfold plain_names. rewrite !Forall_forall.
  intros H e He. apply filter_In in He as [He _]. now apply H.
Qed.

Lemma filter_twice {A : Type} (p q : A -> bool) (l : list A) :
  filter p (filter q l) = filter (fun x => q x && p x) l.
Proof.
  induction l as [|x l IH]; simpl; [reflexivity |].
  destruct (q x); simpl; [destruct (p x) |]; now rewrite IH.
Qed.

(** The loop leaves the directory without the files it was told to delete
    and could remove, and with every other file. *)
Lemma remove_loop_survivors (to_delete : list str) :
  forall es,
    NoDup (map fst es) -> plain_names es ->
    Forall (fun f => plain f = true) to_delete ->
    fst (remove_loop (Listing es) output_dir to_delete)
    = Listing (survivors to_delete es).
Proof.
  induction to_delete as [|f rest IH]; intros es Hnd Hpl Hdel.
  - simpl. unfold survivors, goes. simpl.
    f_equal. symmetry. apply forallb_filter_id.
    apply forallb_forall. reflexivity.
  - inversion Hdel as [|? ? Hf Hrest]; subst.
    cbn [remove_loop]. unfold os_remove. cbn [entries_of].
    rewrite find_named, remove_first_named by assumption.
    destruct (find (fun e => PyStr.eqb (fst e) f) es) as [e|] eqn:Efind.
    + apply find_some_named in Efind as [Hin He].
      destruct (removable (snd e)) eqn:Erem.
      * rewrite remove_first_is_filter by assumption.
        specialize (IH (filter (fun e0 => negb (PyStr.eqb (fst e0) f)) es)
                       (NoDup_names_filter _ es Hnd)
                       (plain_names_filter _ es Hpl) Hrest).
        destruct (remove_loop _ _ rest) as [d'' t]; simpl in *.
        rewrite IH. f_equal. unfold survivors.
        rewrite filter_twice. apply filter_ext_in.
        intros x Hx. unfold goes, mem. cbn [existsb].
        destruct (PyStr.eqb (fst x) f) eqn:Ex; simpl.
        -- apply eqb_eq in Ex.
           assert (x = e)
             by (apply (NoDup_names_unique es); congruence || assumption).
           subst x. now rewrite Erem.
        -- reflexivity.
      * specialize (IH es Hnd Hpl Hrest).
        destruct (remove_loop _ _ rest) as [d'' t]; simpl in *.
        rewrite IH. f_equal. unfold survivors.
        apply filter_ext_in.
        intros x Hx. unfold goes, mem. cbn [existsb].
        destruct (PyStr.eqb (fst x) f) eqn:Ex; simpl; [| reflexivity].
        apply eqb_eq in Ex.
        assert (x = e)
          by (apply (NoDup_names_unique es); congruence || assumption).
        subst x. rewrite Erem. now rewrite !andb_false_r.
    + apply find_none_named in Efind.
      specialize (IH es Hnd Hpl Hrest).
      destruct (remove_loop _ _ rest) as [d'' t]; simpl in *.
      rewrite IH. f_equal. unfold survivors.
      apply filter_ext_in.
      intros x Hx. unfold goes, mem. cbn [existsb].
      destruct (PyStr.eqb (fst x) f) eqn:Ex; simpl; [| reflexivity].
      apply eqb_eq in Ex. exfalso. apply Efind.
      rewrite <- Ex. now apply in_map.
Qed.

End AfterThePass.

Section AfterThePassTheorems.

Variables (utcoffset : Z) (output_dir prefix : str).

Lemma deleted_are_plain (es : list (str * file_info)) (keep : Z) :
  plain_names es ->
  Forall (fun f => plain f = true)
    (Retention.slice_from keep
       (ranked utcoffset (Listing es) output_dir prefix (map fst es))).
Proof.
  intros Hpl. apply Forall_forall. intros f Hf.
  assert (Hc : In f (candidates prefix (map fst es))).
  { eapply Permutation_in; [apply ranked_perm |].
    rewrite <- (slices_split keep). apply in_or_app. right. exact Hf. }
  apply filter_In in Hc as [Hn _].
  apply in_map_iff in Hn as (e & <- & He).
  unfold plain_names in Hpl. rewrite Forall_forall in Hpl. now apply Hpl.
Qed.

Lemma cleanup_out_dir (es : list (str * file_info)) (keep : Z) :
  NoDup (map fst es) -> plain_names es -> 0 < keep ->
  out_dir (cleanup_old_backups utcoffset (Listing es) output_dir prefix keep)
  = Listing
      (survivors
         (Retention.slice_from keep
            (ranked utcoffset (Listing es) output_dir prefix (map fst es)))
         es).
Proof.
  intros Hnd Hpl Hk.
  rewrite cleanup_unfold by exact Hk. cbn [out_dir].
  apply remove_loop_survivors; try assumption.
  now apply deleted_are_plain.
Qed.

(** X3. In a directory of distinct names, the pass with a positive [keep]
    leaves exactly the files that were there, less the files at the tail of
    the ranking on which [os.remove] succeeded; they stay in the order of
    the listing. *)
Theorem directory_after_the_pass (es : list (str * file_info)) (keep : Z) :
  NoDup (map fst es) -> plain_names es -> 0 < keep ->
  out_dir (cleanup_old_backups utcoffset (Listing es) output_dir prefix keep)
  = Listing
      (survivors
         (Retention.slice_from keep
            (ranked utcoffset (Listing es) output_dir prefix (map fst es)))
         es).
Proof. apply cleanup_out_dir. Qed.

Lemma filter_length_perm {A : Type} (p : A -> bool) (l l' : list A) :
  Permutation l l' ->
  List.length (filter p l) = List.length (filter p l').
Proof.
  induction 1 as [| x l l' _ IH | x y l | l l' l'' _ IH1 _ IH2]; simpl.
  - reflexivity.
  - destruct (p x); simpl; now rewrite IH.
  - destruct (p x), (p y); reflexivity.
  - now rewrite IH1.
Qed.

Lemma filter_out_members (del : list str) :
  filter (fun f => negb (mem f del)) del = [].
Proof.
  assert (H : forall l, (forall x, In x l -> In x del) ->
                        filter (fun f => negb (mem f del)) l = []).
  { induction l as [|x l IH]; intros Hl; simpl; [reflexivity |].
    assert (Hx : mem x del = true).
    { apply existsb_exists. exists x. split; [apply Hl; now left |].
      apply eqb_refl. }
    rewrite Hx. simpl. apply IH. intros y Hy. apply Hl. now right. }
  apply H. auto.
Qed.

Lemma names_of_survivors (del : list str) (es : list (str * file_info)) :
  Forall (fun e => removable (snd e) = true) es ->
  map fst (survivors del es)
  = filter (fun f => negb (mem f del)) (map fst es).
Proof.
  intros Hrem. unfold survivors.
  induction Hrem as [|e es He Hes IH]; simpl; [reflexivity |].
  unfold goes at 1. rewrite He, andb_true_r.
  destruct (mem (fst e) del); simpl; now rewrite IH.
Qed.

Lemma filter_swap {A : Type} (p q : A -> bool) (l : list A) :
  filter p (filter q l) = filter q (filter p l).
Proof.
  rewrite !filter_twice. apply filter_ext. intros x. apply andb_comm.
Qed.

(** Where every file can be removed, the candidates left after the pass
    are at most [keep]. *)
Lemma candidates_left (es : list (str * file_info)) (keep : Z) :
  Forall (fun e => removable (snd e) = true) es -> 0 < keep ->
  let del := Retention.slice_from keep
               (ranked utcoffset (Listing es) output_dir prefix (map fst es)) in
  Z.of_nat (List.length (candidates prefix (map fst (survivors del es))))
  <= keep.
Proof.
  intros Hrem Hk del.
  rewrite names_of_survivors by assumption.
  unfold candidates. rewrite filter_swap.
  fold (candidates prefix (map fst es)).
  rewrite (filter_length_perm _ _
             (Retention.slice_to keep
                (ranked utcoffset (Listing es) output_dir prefix (map fst es))
              ++ del)).
  - rewrite filter_app, length_app.
    unfold del at 2. rewrite filter_out_members. simpl.
    rewrite Nat.add_0_r.
    pose proof (filter_length_le
                  (fun f => negb (mem f del))
                  (Retention.slice_to keep
                     (ranked utcoffset (Listing es) output_dir prefix
                             (map fst es)))) as Hle.
    assert (Hto : (List.length
                     (Retention.slice_to keep
                        (ranked utcoffset (Listing es) output_dir prefix
                                (map fst es))) <= Z.to_nat keep)%nat).
    { unfold Retention.slice_to.
      destruct (keep <? 0) eqn:E; [apply Z.ltb_lt in E; lia |].
      rewrite length_firstn. lia. }
    lia.
  - unfold del. rewrite slices_split.
    apply Permutation_sym, ranked_perm.
Qed.

(** X4. Run again on what it left, a pass that could remove every file it
    meant to removes nothing more. *)
Theorem second_pass_removes_nothing (es : list (str * file_info)) (keep : Z) :
  NoDup (map fst es) -> plain_names es ->
  Forall (fun e => removable (snd e) = true) es ->
  let o := cleanup_old_backups utcoffset (Listing es) output_dir prefix keep in
  cleanup_old_backups utcoffset (out_dir o) output_dir prefix keep
  = mk_outcome Returns (out_dir o) [].
Proof.
  intros Hnd Hpl Hrem o.
  destruct (Z.leb_spec keep 0) as [Hk | Hk].
  - unfold cleanup_old_backups. apply Z.leb_le in Hk. now rewrite Hk.
  - unfold o. rewrite cleanup_out_dir by assumption.
    pose proof (candidates_left es keep Hrem Hk) as Hleft. cbv zeta in Hleft.
    remember (survivors
                (Retention.slice_from keep
                   (ranked utcoffset (Listing es) output_dir prefix
                           (map fst es))) es) as es' eqn:Ees'.
    assert (Hnil : Retention.slice_from keep
                     (ranked utcoffset (Listing es') output_dir prefix
                             (map fst es')) = []).
    { unfold Retention.slice_from.
      destruct (keep <? 0) eqn:E'; [apply Z.ltb_lt in E'; lia |].
      apply skipn_all2.
      rewrite (Permutation_length (ranked_perm _ _ _ _ _)). lia. }
    unfold cleanup_old_backups.
    destruct (keep <=? 0) eqn:E; [reflexivity |].
    cbn [listdir]. cbv zeta. rewrite Hnil. reflexivity.
Qed.

End AfterThePassTheorems.

(** ** Ties in the ranking *)
Section Stability.

Context {A : Type} (key : A -> Z).

Lemma insert_asc_same_key (k : Z) (x : A) (l : list A) :
  filter (fun y => key y =? k) (insert_asc key x l)
  = filter (fun y => key y =? k) (x :: l).
Proof.
  induction l as [|y l IH]; [reflexivity |].
  cbn [insert_asc].
  destruct (key x <=? key y) eqn:E; [reflexivity |].
  apply Z.leb_gt in E.
  cbn [filter] in *. rewrite IH.
  destruct (key y =? k) eqn:Ey, (key x =? k) eqn:Ex; try reflexivity.
  apply Z.eqb_eq in Ey, Ex. lia.
Qed.

Lemma sort_asc_same_key (k : Z) (l : list A) :
  filter (fun y => key y =? k) (sort_asc key l)
  = filter (fun y => key y =? k) l.
Proof.
  induction l as [|x l IH]; [reflexivity |].
  cbn [sort_asc fold_right]. rewrite insert_asc_same_key.
  cbn [filter]. fold (sort_asc key l). now rewrite IH.
Qed.

Lemma list_sort_same_key (k : Z) (reverse : bool) (l : list A) :
  filter (fun y => key y =? k) (list_sort key reverse l)
  = filter (fun y => key y =? k) l.
Proof.
  unfold list_sort. destruct reverse.
  - rewrite filter_rev, sort_asc_same_key, filter_rev. apply rev_involutive.
  - apply sort_asc_same_key.
Qed.

End Stability.

Section RankingTies.

Variables (utcoffset : Z) (d : directory) (output_dir prefix : str).

(** X6. Candidates with the same key stand in the ranking in the order in
    which the directory listed them: of two archives of equal key the one
    listed first is the one kept first. *)
Theorem equal_keys_keep_listing_order (names : list str) (k : Z) :
  let key := file_key utcoffset d output_dir prefix in
  filter (fun f => key f =? k) (ranked utcoffset d output_dir prefix names)
  = filter (fun f => key f =? k) (candidates prefix names).
Proof. intros key. unfold ranked. apply list_sort_same_key. Qed.

Lemma lower_app (a b : str) : lower (a ++ b) = lower a ++ lower b.
Proof. apply map_app. Qed.

Lemma startswith_app_more (p a b : str) : startswith ((p ++ a) ++ b) p = true.
Proof. rewrite <- app_assoc. apply startswith_app. Qed.

(** X7. The name the archiver gives an archive passes the candidate test of
    the retention pass run with the same prefix: the archive just made is
    always among the files ranked. *)
Theorem new_archive_is_a_candidate (now : datetime) :
  is_candidate prefix (zip_name now prefix) = true.
Proof.
  unfold is_candidate, zip_name. apply andb_true_iff. split.
  - rewrite app_assoc, lower_app.
    change (lower (lit ".zip")) with (lit ".zip"). apply endswith_app.
  - destruct prefix as [|c p]; [reflexivity |].
    cbn [truthy]. apply startswith_app_more.
Qed.

(** X9. The stamp [create_zip_from_folder] writes in a year of four digits
    is read back by the [strptime] call of [file_key] to the same year,
    month, day, hour, minute, second and microsecond. *)
Theorem stamp_fields_round_trip (now : datetime) :
  valid now = true -> 1000 <= year now ->
  strptime (stamp_text prefix (zip_name now prefix)) = Some now.
Proof.
  intros Hv Hy. rewrite stamp_text_zip_name. now apply strptime_strftime.
Qed.

End RankingTies.

(** * Further properties of the walker *)
Section WalkOutcome.

Variable sftp : sftp_client.


(** A loop that returned ran the body of every item, and each returned. *)
Lemma for_each_returned {A : Type} (body : A -> result) (l : list A)
    (t : list action) :
  for_each body l = (t, None) ->
  forall x, In x l ->
    exists tx, body x = (tx, None) /\ incl tx t.
Proof.
  revert t. induction l as [|x l IH]; intros t H y Hy; simpl in *.
  - contradiction.
  - destruct (body x) as [tx [ex|]] eqn:Ex; [discriminate |].
    destruct (for_each body l) as [t' r] eqn:El.
    inversion H; subst.
    destruct Hy as [<- | Hy].
    + exists tx. split; [exact Ex | apply incl_appl, incl_refl].
    + destruct (IH t' eq_refl y Hy) as (ty & Hb & Hincl).
      exists ty. split; [exact Hb | now apply incl_appr].
Qed.

(** What a loop that returned did is what its bodies did. *)
Lemma for_each_actions {A : Type} (body : A -> result) (l : list A)
    (t : list action) (r : option error) (a : action) :
  for_each body l = (t, r) -> In a t ->
  exists x, In x l /\ In a (fst (body x)).
Proof.
  revert t. induction l as [|x l IH]; intros t H Ha; simpl in H.
  - inversion H; subst. contradiction.
  - destruct (body x) as [tx [ex|]] eqn:Ex.
    + inversion H; subst. exists x. rewrite Ex. simpl. auto.
    + destruct (for_each body l) as [t' r'] eqn:El.
      inversion H; subst.
      apply in_app_or in Ha as [Ha | Ha].
      * exists x. rewrite Ex. simpl. auto.
      * destruct (IH t' eq_refl Ha) as (y & Hy & Hin).
        exists y. simpl. auto.
Qed.



Lemma walk_all_fetched (depth : nat) :
  forall remote_dir local_dir t,
    download_sftp_dir depth sftp remote_dir local_dir = (t, None) ->
    all_fetched sftp t.
Proof.
  induction depth as [|depth IH]; intros remote_dir local_dir t H.
  - discriminate.
  - simpl in H.
    destruct (listdir_attr sftp remote_dir) as [entries|]; [| discriminate].
    destruct (for_each _ entries) as [t' r] eqn:Ef.
    inversion H; subst. clear H.
    intros rp lp [Hin | Hin]; [discriminate |].
    pose proof (for_each_returned _ _ _ Ef) as Hret.
    destruct (for_each_actions _ _ _ _ _ Ef Hin) as (x & Hx & Ha).
    destruct (Hret x Hx) as (tx & Hb & _).
    rewrite Hb in Ha. simpl in Ha.
    unfold visit in Hb.
    destruct (is_dot_name (filename x)).
    { inversion Hb; subst. contradiction. }
    destruct (S_ISDIR (st_mode x)).
    + exact (IH _ _ _ Hb rp lp Ha).
    + unfold download_sftp_file in Hb.
      destruct (get_ok sftp _ _) eqn:Eg; inversion Hb; subst.
      destruct Ha as [Ha | [Ha | [Ha | []]]]; try discriminate.
      inversion Ha; subst. exact Eg.
Qed.

(** X12. A walk that returns has fetched every file it asked for: no failed
    fetch is passed over. *)
Theorem returned_walk_fetched_everything (depth : nat)
    (remote_dir local_dir : str) (t : list action) :
  download_sftp_dir depth sftp remote_dir local_dir = (t, None) ->
  all_fetched sftp t.
Proof. apply walk_all_fetched. Qed.

End WalkOutcome.

Section WalkDepth.

Variable sftp : sftp_client.

Lemma visit_deeper (rec rec' : str -> str -> result)
    (remote_dir local_dir : str) (x : entry) (t : list action)
    (r : option error) :
  (forall rd ld t e, rec rd ld = (t, e) -> e <> Some RecursionError ->
                     rec' rd ld = (t, e)) ->
  visit rec sftp remote_dir local_dir x = (t, r) ->
  r <> Some RecursionError ->
  visit rec' sftp remote_dir local_dir x = (t, r).
Proof.
  intros Hrec. unfold visit.
  destruct (is_dot_name (filename x)); [auto |].
  destruct (S_ISDIR (st_mode x)); [apply Hrec | auto].
Qed.

Lemma for_each_deeper (rec rec' : str -> str -> result)
    (remote_dir local_dir : str) (l : list entry) :
  (forall rd ld t e, rec rd ld = (t, e) -> e <> Some RecursionError ->
                     rec' rd ld = (t, e)) ->
  forall t r,
    for_each (visit rec sftp remote_dir local_dir) l = (t, r) ->
    r <> Some RecursionError ->
    for_each (visit rec' sftp remote_dir local_dir) l = (t, r).
Proof.
  intros Hrec. induction l as [|x l IH]; intros t r H Hr; simpl in *.
  - exact H.
  - destruct (visit rec sftp remote_dir local_dir x) as [tx [ex|]] eqn:Ex.
    + inversion H; subst.
      now rewrite (visit_deeper _ _ _ _ _ _ _ Hrec Ex Hr).
    + assert (Hn : @None error <> Some RecursionError) by discriminate.
      rewrite (visit_deeper _ _ _ _ _ _ _ Hrec Ex Hn).
      destruct (for_each (visit rec sftp remote_dir local_dir) l)
        as [t' r'] eqn:El.
      inversion H; subst.
      now rewrite (IH _ _ eq_refl Hr).
Qed.

Lemma walk_deeper (depth : nat) :
  forall remote_dir local_dir t e,
    download_sftp_dir depth sftp remote_dir local_dir = (t, e) ->
    e <> Some RecursionError ->
    download_sftp_dir (S depth) sftp remote_dir local_dir = (t, e).
Proof.
  induction depth as [|depth IH]; intros remote_dir local_dir t e H He.
  - simpl in H. inversion H; subst. contradiction.
  - cbn [download_sftp_dir] in H.
    change (download_sftp_dir (S (S depth)) sftp remote_dir local_dir)
      with (match listdir_attr sftp remote_dir with
            | None => ([Makedirs local_dir], Some (Failed_to_list remote_dir))
            | Some entries =>
                let (t, r) :=
                  for_each (visit (download_sftp_dir (S depth) sftp) sftp
                                  remote_dir local_dir) entries in
                (Makedirs local_dir :: t, r)
            end).
    destruct (listdir_attr sftp remote_dir) as [entries|]; [| exact H].
    destruct (for_each (visit (download_sftp_dir depth sftp) sftp
                              remote_dir local_dir) entries)
      as [t' r] eqn:Ef.
    inversion H; subst.
    now rewrite (for_each_deeper _ _ _ _ _ IH _ _ Ef He).
Qed.

(** X14. A walk that did not run out of nesting depth does the same, and ends
    the same way, under every greater limit. *)
Theorem deeper_limit_same_walk (depth more : nat)
    (remote_dir local_dir : str) (t : list action) (e : option error) :
  download_sftp_dir depth sftp remote_dir local_dir = (t, e) ->
  e <> Some RecursionError ->
  download_sftp_dir (depth + more) sftp remote_dir local_dir = (t, e).
Proof.
  intros H He. induction more as [|more IH].
  - now rewrite Nat.add_0_r.
  - rewrite Nat.add_succ_r. now apply walk_deeper.
Qed.

Lemma returned_walk_made_its_directory (depth : nat)
    (remote_dir local_dir : str) (t : list action) :
  download_sftp_dir depth sftp remote_dir local_dir = (t, None) ->
  In (Makedirs local_dir) t.
Proof.
  destruct depth as [|depth]; [discriminate |]. simpl.
  destruct (listdir_attr sftp remote_dir); [| discriminate].
  destruct (for_each _ _). intros H. inversion H; subst. now left.
Qed.

(** X13. A walk that returns has dealt with every entry of the listing of its
    directory other than ["."] and [".."]: it has made the local directory
    of each subdirectory and fetched each file to its local path. *)
Theorem returned_walk_mirrored_every_entry (depth : nat)
    (remote_dir local_dir : str) (t : list action) (entries : list entry)
    (e : entry) :
  download_sftp_dir depth sftp remote_dir local_dir = (t, None) ->
  listdir_attr sftp remote_dir = Some entries ->
  In e entries -> is_dot_name (filename e) = false ->
  In (mirrored remote_dir local_dir e) t.
Proof.
  intros H Hl He Hdot.
  destruct depth as [|depth]; [discriminate |]. simpl in H.
  rewrite Hl in H.
  destruct (for_each _ entries) as [t' r] eqn:Ef.
  inversion H; subst. right.
  destruct (for_each_returned _ _ _ Ef e He) as (tx & Hb & Hincl).
  apply Hincl. unfold visit in Hb. rewrite Hdot in Hb.
  unfold mirrored.
  destruct (S_ISDIR (st_mode e)).
  - eapply returned_walk_made_its_directory. exact Hb.
  - unfold download_sftp_file in Hb.
    destruct (get_ok sftp _ _); inversion Hb; subst.
    simpl. auto.
Qed.

End WalkDepth.

(** ** Where the local paths lead *)
Section LocalPaths.

Lemma resolve_trailing_sep (a : str) : resolve (a ++ [sep]) = resolve a.
Proof.
  unfold resolve. rewrite split_at_sep.
  change (PosixPath.split []) with [@nil ascii].
  rewrite fold_left_app. reflexivity.
Qed.

Lemma resolve_rstrip_rev (l : str) :
  resolve (rev (dropwhile (Ascii.eqb sep) l)) = resolve (rev l).
Proof.
  induction l as [|c l IH]; [reflexivity |].
  cbn [dropwhile]. destruct (Ascii.eqb sep c) eqn:E; [| reflexivity].
  apply Ascii.eqb_eq in E. subst c.
  cbn [rev]. now rewrite resolve_trailing_sep.
Qed.

Lemma resolve_rstrip (p : str) : resolve (PyStr.rstrip sep p) = resolve p.
Proof.
  unfold PyStr.rstrip. rewrite resolve_rstrip_rev. now rewrite rev_involutive.
Qed.

(** A name free of ['/'] joined to a directory adds one step to where the
    directory leads. *)
Lemma resolve_join_plain (p name : str) :
  plain name = true -> name <> [] -> is_dot_name name = false ->
  resolve (join p name) = resolve p ++ [name].
Proof.
  intros Hplain Hne Hdot.
  assert (Hstep : forall st, resolve_step st name = name :: st).
  { intros st. unfold resolve_step. unfold is_dot_name in Hdot.
    apply orb_false_iff in Hdot as [H1 H2]. rewrite H1, H2.
    destruct (PyStr.eqb name []) eqn:E; [| reflexivity].
    apply eqb_eq in E. contradiction. }
  unfold join. rewrite (plain_not_absolute name Hplain).
  destruct (negb (truthy p) || endswith p [sep]) eqn:E.
  - apply orb_true_iff in E as [E | E].
    + destruct p; [| discriminate]. cbn [app].
      unfold resolve. rewrite (split_plain name Hplain).
      cbn [fold_left]. now rewrite Hstep.
    + apply endswith_split in E as [t ->].
      rewrite resolve_trailing_sep. rewrite <- app_assoc. cbn [app].
      unfold resolve. rewrite split_at_sep, (split_plain name Hplain).
      rewrite fold_left_app. cbn [fold_left]. now rewrite Hstep.
  - unfold resolve. rewrite split_at_sep, (split_plain name Hplain).
    rewrite fold_left_app. cbn [fold_left]. now rewrite Hstep.
Qed.

Lemma dropwhile_plain_rev (name rest : str) :
  plain name = true ->
  dropwhile (fun c => negb (Ascii.eqb sep c)) (rev name ++ rest)
  = dropwhile (fun c => negb (Ascii.eqb sep c)) rest.
Proof.
  unfold plain. revert rest.
  induction name as [|c name IH]; intros rest H; [reflexivity |].
  simpl in H. apply andb_true_iff in H as [Hc H].
  cbn [rev]. rewrite <- app_assoc. rewrite IH by exact H.
  cbn [app dropwhile]. rewrite Ascii.eqb_sym. now rewrite Hc.
Qed.

(** The head [dirname] cuts off a path that ends in a name free of ['/']. *)
Lemma dirname_head (a name : str) :
  plain name = true ->
  rev (dropwhile (fun c => negb (Ascii.eqb sep c)) (rev (a ++ sep :: name)))
  = a ++ [sep].
Proof.
  intros H. rewrite rev_app_distr. cbn [rev].
  rewrite <- app_assoc. rewrite dropwhile_plain_rev by exact H.
  cbn [app dropwhile]. rewrite Ascii.eqb_refl. cbn [negb].
  cbn [rev]. now rewrite rev_involutive.
Qed.

Lemma resolve_dirname_of (head : str) :
  resolve (if truthy head && negb (all_sep head)
           then PyStr.rstrip sep head else head)
  = resolve head.
Proof.
  destruct (truthy head && negb (all_sep head)); [apply resolve_rstrip |
    reflexivity].
Qed.

(** The parent directory of such a path is the directory the name was
    joined to. *)
Lemma resolve_dirname_join (p name : str) :
  plain name = true ->
  resolve (dirname (join p name)) = resolve p.
Proof.
  intros Hplain. unfold dirname. rewrite resolve_dirname_of.
  unfold join. rewrite (plain_not_absolute name Hplain).
  destruct (negb (truthy p) || endswith p [sep]) eqn:E.
  - apply orb_true_iff in E as [E | E].
    + destruct p; [| discriminate]. cbn [app].
      rewrite <- (app_nil_r (rev name)).
      rewrite dropwhile_plain_rev by exact Hplain. reflexivity.
    + apply endswith_split in E as [t ->].
      rewrite <- app_assoc. cbn [app].
      now rewrite dirname_head.
  - rewrite dirname_head by exact Hplain. apply resolve_trailing_sep.
Qed.

Lemma is_prefix_app_r (a b c : list str) :
  is_prefix a b = true -> is_prefix a (b ++ c) = true.
Proof.
  revert b. induction a as [|x a IH]; intros b H; [reflexivity |].
  destruct b as [|y b]; [discriminate |].
  simpl in *. apply andb_true_iff in H as [Hx H].
  rewrite Hx. now apply IH.
Qed.

Variable sftp : sftp_client.

Lemma for_each_stays_under (root : str) (body : entry -> result)
    (l : list entry) (t : list action) (r : option error) :
  (forall x, In x l -> stays_under root (fst (body x))) ->
  for_each body l = (t, r) -> stays_under root t.
Proof.
  intros Hbody H a p Ha Hp.
  destruct (for_each_actions body l t r a H Ha) as (x & Hx & Hin).
  exact (Hbody x Hx a p Hin Hp).
Qed.

Lemma walk_stays_under (root : str) (depth : nat) :
  benign sftp ->
  forall remote_dir local_dir,
    is_under root local_dir = true ->
    stays_under root (fst (download_sftp_dir depth sftp remote_dir local_dir)).
Proof.
  intros Hben. induction depth as [|depth IH];
    intros remote_dir local_dir Hroot.
  - intros a p [].
  - simpl.
    destruct (listdir_attr sftp remote_dir) as [entries|] eqn:El.
    + destruct (for_each _ entries) as [t r] eqn:Ef. simpl.
      intros a p [<- | Ha] Hp.
      * destruct Hp as [<- | []]. exact Hroot.
      * revert a p Ha Hp. fold (stays_under root t).
        eapply for_each_stays_under; [| exact Ef].
        intros x Hx. unfold visit.
        destruct (is_dot_name (filename x)) eqn:Edot; [intros a p [] |].
        destruct (Hben remote_dir entries x El Hx) as [Hd | [Hpl Hne]];
          [congruence |].
        assert (Hlp : is_under root (join local_dir (filename x)) = true).
        { unfold is_under. rewrite resolve_join_plain by assumption.
          now apply is_prefix_app_r. }
        destruct (S_ISDIR (st_mode x)); [now apply IH |].
        unfold download_sftp_file. simpl.
        intros a p [<- | [<- | [<- | []]]] Hp; simpl in Hp.
        -- destruct Hp as [<- | []]. unfold is_under.
           rewrite resolve_dirname_join by assumption. exact Hroot.
        -- contradiction.
        -- destruct Hp as [<- | []]. exact Hlp.
    + simpl. intros a p [<- | []] [<- | []]. exact Hroot.
Qed.


End LocalPaths.

(** * The local target of the run *)
Section TargetName.

Lemma dropwhile_head (p : ascii -> bool) (s : str) (c : ascii) (rest : str) :
  dropwhile p s = c :: rest -> p c = false.
Proof.
  induction s as [|x s IH]; simpl; [discriminate |].
  destruct (p x) eqn:E; [exact IH |].
  intros H. inversion H; subst. exact E.
Qed.

Lemma dropwhile_nil_all (p : ascii -> bool) (s : str) :
  dropwhile p s = [] <-> forallb p s = true.
Proof.
  induction s as [|x s IH]; simpl; [tauto |].
  destruct (p x); simpl; [exact IH |].
  split; discriminate.
Qed.

Lemma takewhile_all (p : ascii -> bool) (s : str) :
  forallb p (takewhile p s) = true.
Proof.
  induction s as [|x s IH]; simpl; [reflexivity |].
  destruct (p x) eqn:E; simpl; [now rewrite E |reflexivity].
Qed.

Lemma takewhile_nil (p : ascii -> bool) (s : str) :
  takewhile p s = [] -> s = [] \/ exists c rest, s = c :: rest /\ p c = false.
Proof.
  destruct s as [|x s]; simpl; [auto |].
  destruct (p x) eqn:E; [discriminate |]. eauto.
Qed.

Lemma forallb_rev {A : Type} (p : A -> bool) (l : list A) :
  forallb p (rev l) = forallb p l.
Proof.
  induction l as [|x l IH]; [reflexivity |].
  cbn [rev]. rewrite forallb_app, IH. simpl.
  rewrite andb_true_r. apply andb_comm.
Qed.

Lemma basename_plain (p : str) : plain (basename p) = true.
Proof.
  unfold plain, basename. rewrite forallb_rev.
  pose proof (takewhile_all (fun c => negb (Ascii.eqb sep c)) (rev p)) as H.
  rewrite forallb_forall in *. intros c Hc.
  rewrite Ascii.eqb_sym. now apply H.
Qed.

(** The text is made of slashes only. *)
Lemma rstrip_nil_all (s : str) :
  PyStr.rstrip sep s = [] <-> all_sep s = true.
Proof.
  unfold PyStr.rstrip, all_sep. split.
  - intros H. apply (f_equal (@rev ascii)) in H.
    rewrite rev_involutive in H. simpl in H.
    apply dropwhile_nil_all in H. now rewrite forallb_rev in H.
  - intros H. rewrite <- forallb_rev in H.
    apply dropwhile_nil_all in H. now rewrite H.
Qed.

Lemma or_else_plain (a b : str) :
  plain a = true -> plain b = true -> plain (or_else a b) = true.
Proof. intros Ha Hb. unfold or_else. now destruct (truthy a). Qed.

Lemma replace_plain (s : str) : plain (replace "/" "_" s) = true.
Proof.
  unfold plain, replace. rewrite forallb_forall. intros c Hc.
  apply in_map_iff in Hc as (x & <- & _).
  destruct (Ascii.eqb x "/") eqn:E; [reflexivity |].
  change sep with "/"%char. now rewrite E.
Qed.

Lemma target_name_plain (remote_dir : str) :
  plain (target_name remote_dir) = true.
Proof.
  unfold target_name.
  apply or_else_plain; [apply basename_plain | apply replace_plain].
Qed.

(** X16. The name [main] gives the local target is always the base name of
    the remote directory without its trailing slashes: the alternative
    after [or] is taken only when it is the empty string too.  The name
    holds no ['/'], and it is empty exactly when the remote directory is
    written with slashes only. *)
Theorem target_name_is_the_base_name (remote_dir : str) :
  target_name remote_dir = basename (PyStr.rstrip "/" remote_dir)
  /\ plain (target_name remote_dir) = true
  /\ (target_name remote_dir = [] <-> all_sep remote_dir = true).
Proof.
  assert (Hempty : basename (PyStr.rstrip "/" remote_dir) = [] ->
                   all_sep remote_dir = true).
  { unfold basename. intros H.
    apply (f_equal (@rev ascii)) in H. rewrite rev_involutive in H.
    cbn [rev] in H. apply takewhile_nil in H as [H | (c & rest & H & Hc)].
    - apply (f_equal (@rev ascii)) in H. rewrite rev_involutive in H.
      now apply rstrip_nil_all.
    - unfold PyStr.rstrip in H. rewrite rev_involutive in H.
      apply dropwhile_head in H.
      apply negb_false_iff in Hc. change sep with "/"%char in Hc.
      congruence. }
  assert (Hname : target_name remote_dir
                  = basename (PyStr.rstrip "/" remote_dir)).
  { unfold target_name, or_else.
    destruct (basename (PyStr.rstrip "/" remote_dir)) as [|c b] eqn:E;
      [| reflexivity].
    cbn [truthy]. specialize (Hempty eq_refl).
    apply rstrip_nil_all in Hempty.
    unfold strip. change "/"%char with sep. now rewrite Hempty. }
  split; [exact Hname |]. split.
  - rewrite Hname. apply basename_plain.
  - rewrite Hname. split; [exact Hempty |].
    intros H. apply rstrip_nil_all in H.
    change "/"%char with sep. now rewrite H.
Qed.

End TargetName.

(** * The names of the archive's entries *)

Scheme tree_forest_ind := Induction for tree Sort Prop
  with forest_tree_ind := Induction for forest Sort Prop.

Section PathParts.

Lemma split_all_plain (p : str) : Forall (fun w => plain w = true) (PosixPath.split p).
Proof.
  induction p as [|c p IH]; simpl.
  - constructor; [reflexivity | constructor].
  - destruct (Ascii.eqb c sep) eqn:E.
    + constructor; [reflexivity | exact IH].
    + destruct (PosixPath.split p) as [|w ws]; [repeat constructor |].
      * unfold plain. simpl. now rewrite E.
      * inversion IH; subst. constructor; [| assumption].
        unfold plain in *. simpl. now rewrite E.
Qed.

Lemma resolve_step_parts (st : list str) (comp : str) :
  plain comp = true -> Forall part st -> Forall part (resolve_step st comp).
Proof.
  intros Hc Hst. unfold resolve_step.
  destruct (PyStr.eqb comp []) eqn:E; [exact Hst |]. cbn [orb].
  destruct (PyStr.eqb comp (lit ".")); [exact Hst |].
  destruct (PyStr.eqb comp (lit "..")).
  - destruct st; [constructor | now inversion Hst].
  - constructor; [| exact Hst]. split; [exact Hc |].
    intros ->. discriminate.
Qed.

Lemma fold_resolve_parts (l : list str) :
  forall st, Forall (fun w => plain w = true) l -> Forall part st ->
             Forall part (fold_left resolve_step l st).
Proof.
  induction l as [|c l IH]; intros st Hl Hst; [exact Hst |].
  inversion Hl; subst. cbn [fold_left].
  apply IH; [assumption |]. now apply resolve_step_parts.
Qed.

Lemma resolve_parts (p : str) : Forall part (resolve p).
Proof.
  unfold resolve. apply Forall_rev.
  apply fold_resolve_parts; [apply split_all_plain | constructor].
Qed.

Lemma norm_step_rooted (st : list str) (comp : str) :
  no_up st ->
  norm_step true st comp = resolve_step st comp
  /\ no_up (resolve_step st comp).
Proof.
  intros Hst. unfold norm_step, resolve_step.
  destruct (PyStr.eqb comp [] || PyStr.eqb comp (lit ".")); [auto |].
  destruct (PyStr.eqb comp (lit "..")) eqn:E; cbn [negb orb andb].
  - destruct st as [|top st]; [auto |].
    inversion Hst as [|? ? Htop Hrest]; subst.
    cbn [tl]. rewrite Htop. auto.
  - split; [reflexivity |]. constructor; assumption.
Qed.

Lemma fold_norm_rooted (l : list str) :
  forall st, no_up st ->
             fold_left (norm_step true) l st = fold_left resolve_step l st.
Proof.
  induction l as [|c l IH]; intros st Hst; [reflexivity |].
  cbn [fold_left].
  destruct (norm_step_rooted st c Hst) as [-> Hnext].
  now apply IH.
Qed.

Lemma parts_leading_sep (s : str) : parts (sep :: s) = parts s.
Proof. reflexivity. Qed.

Lemma parts_slash_join (comps : list str) :
  Forall part comps -> parts (slash_join comps) = comps.
Proof.
  induction 1 as [|c rest [Hpl Hne] Hrest IH]; [reflexivity |].
  assert (Hc : parts c = [c]).
  { unfold parts. rewrite (split_plain c Hpl). simpl.
    destruct c; [contradiction | reflexivity]. }
  destruct rest as [|d rest]; [exact Hc |].
  change (slash_join (c :: d :: rest))
    with (c ++ sep :: slash_join (d :: rest)).
  unfold parts in *. rewrite split_at_sep, filter_app.
  now rewrite Hc, IH.
Qed.

(** The components of the normal form of an absolute path are where the
    path leads. *)
Lemma parts_normpath (p : str) :
  isabs p = true -> parts (normpath p) = resolve p.
Proof.
  intros Habs. unfold normpath.
  destruct p as [|c p]; [discriminate |]. cbn [truthy negb].
  unfold isabs in Habs. change (lit "/") with [sep]. rewrite Habs.
  assert (Hcomps : rev (fold_left (norm_step true)
                                  (PosixPath.split (c :: p)) [])
                   = resolve (c :: p)).
  { unfold resolve. f_equal. apply fold_norm_rooted. constructor. }
  destruct (startswith (c :: p) (lit "//")
            && negb (startswith (c :: p) (lit "///")));
    cbn [Nat.eqb negb repeat app]; rewrite Hcomps;
    unfold or_else; cbn [truthy];
    rewrite ?parts_leading_sep; apply parts_slash_join, resolve_parts.
Qed.

Lemma list_ltb_longer (a rest : list str) : list_ltb (a ++ rest) a = false.
Proof.
  induction a as [|x a IH]; simpl.
  - now destruct rest.
  - now rewrite eqb_refl.
Qed.

Lemma agree_prefix (a rest : list str) : agree a (a ++ rest) = a.
Proof.
  induction a as [|x a IH]; simpl; [reflexivity |].
  now rewrite eqb_refl, IH.
Qed.

Lemma commonprefix_prefix (a rest : list str) :
  commonprefix a (a ++ rest) = a.
Proof.
  unfold commonprefix. rewrite list_ltb_longer. apply agree_prefix.
Qed.

End PathParts.

Section ArchiveNames.

Lemma skipn_exact_list {A : Type} (a b : list A) :
  skipn (List.length a) (a ++ b) = b.
Proof. induction a as [|x a IH]; simpl; [reflexivity | exact IH]. Qed.

Lemma good_name_part (name : str) : good_name name -> part name.
Proof. intros (Hp & Hne & _). now split. Qed.

Lemma ends_in_name (x name : str) :
  plain name = true -> name <> [] -> endswith (x ++ name) [sep] = false.
Proof.
  intros Hpl Hne. unfold endswith. rewrite rev_app_distr.
  destruct (rev name) as [|c r] eqn:E.
  - apply (f_equal (@rev ascii)) in E. rewrite rev_involutive in E.
    contradiction.
  - cbn [rev app startswith].
    assert (Hc : In c name) by (apply in_rev; rewrite E; now left).
    unfold plain in Hpl. rewrite forallb_forall in Hpl.
    specialize (Hpl c Hc). apply negb_true_iff in Hpl. now rewrite Hpl.
Qed.

(** Joining a name free of ['/'] to a path that ends in such a name puts
    one slash between them. *)
Lemma join_after_name (x name b : str) :
  plain name = true -> name <> [] -> plain b = true ->
  join (x ++ name) b = (x ++ name) ++ sep :: b.
Proof.
  intros Hpl Hne Hb. unfold join.
  rewrite (plain_not_absolute b Hb), (ends_in_name x name Hpl Hne).
  destruct (x ++ name) eqn:E; [| reflexivity].
  apply app_eq_nil in E as [_ E]. contradiction.
Qed.

Lemma fold_join_names (rest : list str) :
  Forall part rest ->
  forall x name,
    plain name = true -> name <> [] ->
    fold_left join rest (x ++ name)
    = x ++ slash_join (name :: rest).
Proof.
  induction 1 as [|b rest [Hb Hbne] Hrest IH]; intros x name Hpl Hne.
  - reflexivity.
  - cbn [fold_left]. rewrite join_after_name by assumption.
    change ((x ++ name) ++ sep :: b) with ((x ++ name) ++ [sep] ++ b).
    rewrite app_assoc. rewrite IH by assumption.
    change (slash_join (name :: b :: rest))
      with (name ++ sep :: slash_join (b :: rest)).
    rewrite <- !app_assoc. reflexivity.
Qed.

Lemma join_all_names (names : list str) :
  Forall part names -> join_all names = slash_join names.
Proof.
  intros H. destruct names as [|c rest]; [reflexivity |].
  inversion H as [|? ? [Hc Hne] Hrest]; subst.
  unfold join_all. apply (fold_join_names rest Hrest [] c Hc Hne).
Qed.

Lemma join_isabs (r name : str) :
  isabs r = true -> plain name = true -> isabs (join r name) = true.
Proof.
  intros Hr Hn. unfold join. rewrite (plain_not_absolute name Hn).
  destruct r as [|c r]; [discriminate |].
  unfold isabs in *. simpl in Hr.
  destruct (negb (truthy (c :: r)) || endswith (c :: r) [sep]); exact Hr.
Qed.

Variables (cwd src_folder : str).
Hypothesis src_abs : isabs src_folder = true.

(** The entry name of a file in a directory that lies the names [pre]
    below the source folder. *)
Lemma relpath_below (r file : str) (pre : list str) :
  isabs r = true -> resolve r = resolve src_folder ++ pre ->
  Forall part pre -> good_name file ->
  relpath cwd (join r file) src_folder = Some (slash_join (pre ++ [file])).
Proof.
  intros Hr Hres Hpre (Hpl & Hne & Hdot).
  unfold relpath, abspath.
  rewrite src_abs, (join_isabs r file Hr Hpl).
  rewrite !parts_normpath by (try apply join_isabs; assumption).
  rewrite (resolve_join_plain r file Hpl Hne Hdot), Hres, <- app_assoc.
  rewrite commonprefix_prefix, Nat.sub_diag. cbn [repeat app].
  rewrite skipn_exact_list.
  assert (Htruthy : truthy (join r file) = true).
  { unfold join. rewrite (plain_not_absolute file Hpl).
    destruct r; [discriminate |].
    now destruct (negb (truthy (a :: r)) || endswith (a :: r) [sep]). }
  rewrite Htruthy. cbn [negb].
  destruct (pre ++ [file]) as [|c rest] eqn:E.
  - apply app_eq_nil in E as [_ E]. discriminate.
  - rewrite <- E. f_equal. apply join_all_names.
    apply Forall_app. split; [exact Hpre |].
    constructor; [now split | constructor].
Qed.

End ArchiveNames.

Section ArchiveEntries.

Variables (cwd src_folder : str).
Hypothesis src_abs : isabs src_folder = true.

Lemma collect_app {A B : Type} (body : A -> option B) (a b : list A)
    (xs ys : list B) :
  collect body a = Some xs -> collect body b = Some ys ->
  collect body (a ++ b) = Some (xs ++ ys).
Proof.
  revert xs. induction a as [|x a IH]; intros xs Ha Hb; simpl in *.
  - inversion Ha; subst. exact Hb.
  - destruct (body x) as [y|]; [| discriminate].
    destruct (collect body a) as [zs|]; [| discriminate].
    inversion Ha; subst. now rewrite (IH zs eq_refl Hb).
Qed.

Lemma loop_items_app (a b : list (str * list str * list str)) :
  loop_items (a ++ b) = loop_items a ++ loop_items b.
Proof. apply flat_map_app. Qed.

Lemma files_of_a_directory (r : str) (pre : list str) (files : list str) :
  isabs r = true -> resolve r = resolve src_folder ++ pre ->
  Forall part pre -> Forall good_name files ->
  collect (write_call cwd src_folder) (map (fun file => (r, file)) files)
  = Some (map (entry_of r pre) (map (fun f => [f]) files)).
Proof.
  intros Hr Hres Hpre Hfiles.
  induction Hfiles as [|f files Hf Hfiles IH]; [reflexivity |].
  cbn [map collect]. unfold write_call at 1.
  rewrite (relpath_below cwd src_folder src_abs r f pre Hr Hres Hpre Hf).
  rewrite IH. reflexivity.
Qed.

Lemma walk_writes :
  forall t r pre,
    isabs r = true -> resolve r = resolve src_folder ++ pre ->
    Forall part pre -> good_tree t ->
    collect (write_call cwd src_folder) (loop_items (os_walk r t))
    = Some (map (entry_of r pre) (files_below t)).
Proof.
  apply (tree_forest_ind
    (fun t => forall r pre,
       isabs r = true -> resolve r = resolve src_folder ++ pre ->
       Forall part pre -> good_tree t ->
       collect (write_call cwd src_folder) (loop_items (os_walk r t))
       = Some (map (entry_of r pre) (files_below t)))
    (fun ds => forall r pre,
       isabs r = true -> resolve r = resolve src_folder ++ pre ->
       Forall part pre -> good_forest ds ->
       collect (write_call cwd src_folder) (loop_items (walk_each r ds))
       = Some (map (entry_of r pre) (files_in ds)))).
  - intros files dirs IH r pre Hr Hres Hpre [Hfiles Hdirs].
    cbn [os_walk files_below].
    change (loop_items ((r, names_of dirs, files) :: walk_each r dirs))
      with (map (fun file => (r, file)) files
            ++ loop_items (walk_each r dirs)).
    rewrite map_app. apply collect_app.
    + now apply files_of_a_directory.
    + now apply IH.
  - reflexivity.
  - intros name sub IHsub rest IHrest r pre Hr Hres Hpre
           (Hname & Hsub & Hrest).
    cbn [walk_each files_in].
    rewrite loop_items_app, map_app. apply collect_app.
    + destruct Hname as (Hpl & Hne & Hdot).
      rewrite (IHsub (join r name) (pre ++ [name])).
      * f_equal. rewrite map_map. apply map_ext.
        intros names. unfold entry_of. cbn [fold_left].
        now rewrite <- app_assoc.
      * now apply join_isabs.
      * rewrite resolve_join_plain by assumption.
        now rewrite Hres, <- app_assoc.
      * apply Forall_app. split; [exact Hpre |].
        constructor; [now split | constructor].
      * exact Hsub.
    + now apply IHrest.
Qed.

(** X17. For a source folder given by an absolute path, the archive gets one
    entry for every file below the folder and none for a directory: the
    file is read from the path built by joining the names that lead to it,
    and its entry is named by these names with one slash between them,
    the path relative to the source folder. *)
Theorem archive_entries_are_relative_paths (t : tree) :
  good_tree t ->
  zip_writes cwd src_folder t
  = Some (map (fun names => (fold_left join names src_folder,
                             slash_join names))
              (files_below t)).
Proof.
  intros Ht.
  unfold zip_writes.
  rewrite (walk_writes t src_folder []); try assumption.
  - reflexivity.
  - now rewrite app_nil_r.
  - constructor.
Qed.

End ArchiveEntries.

(** * The configuration and the run *)

Import Config Main.

Section ConfigProperties.

Lemma dropwhile_suffix (p : ascii -> bool) (s : str) :
  exists pre, s = pre ++ dropwhile p s.
Proof.
  induction s as [|c s [pre IH]]; [now exists [] |].
  simpl. destruct (p c).
  - exists (c :: pre). simpl. now rewrite <- IH.
  - now exists [].
Qed.

Lemma last_rev_cons (x : ascii) (v : str) (d : ascii) :
  last (rev (x :: v)) d = x.
Proof. cbn [rev]. rewrite last_app_r by discriminate. reflexivity. Qed.

(** [strip] leaves no white space at either end. *)
Lemma strip_ws_trimmed (s : str) : trimmed (strip_ws s).
Proof.
  unfold trimmed, strip_ws.
  destruct (dropwhile is_space (rev (dropwhile is_space (rev s))))
    as [|c r] eqn:E; [exact I |].
  split; [exact (dropwhile_head _ _ _ _ E) |].
  destruct (dropwhile_suffix is_space
              (rev (dropwhile is_space (rev s)))) as [pre Hpre].
  rewrite E in Hpre.
  assert (Hlast : last (c :: r) c
                  = last (rev (dropwhile is_space (rev s))) c).
  { rewrite Hpre. rewrite last_app_r by discriminate. reflexivity. }
  rewrite Hlast.
  destruct (dropwhile is_space (rev s)) as [|x v] eqn:Ev.
  - simpl in Hpre. destruct pre; discriminate.
  - rewrite last_rev_cons. exact (dropwhile_head _ _ _ _ Ev).
Qed.

Lemma set_value (v : option str) :
  unset v = false -> exists s, v = Some s /\ s <> [].
Proof.
  destruct v as [[|c s]|]; simpl; try discriminate.
  intros _. exists (c :: s). split; [reflexivity | discriminate].
Qed.

(** X18. A configuration that [read_config] returns names a host, a user and a
    remote directory, none of them empty, and its remote directory and
    archive prefix carry no white space at either end. *)
Theorem accepted_config_is_complete (env : environ) (cfg : config) :
  read_config env = inl cfg ->
  (exists h, host cfg = Some h /\ h <> [])
  /\ (exists u, user cfg = Some u /\ u <> [])
  /\ dir cfg <> []
  /\ trimmed (dir cfg)
  /\ trimmed (zip_prefix cfg).
Proof.
  unfold read_config.
  destruct (py_int (getenv env "SFTP_PORT" (lit "22"))) as [p|];
    [| discriminate].
  destruct (py_int (getenv env "SFTP_TIMEOUT" (lit "30"))) as [t|];
    [| discriminate].
  destruct (py_int (getenv env "KEEP_BACKUPS" (lit "3"))) as [k|];
    [| discriminate].
  cbv zeta. cbn [host user dir].
  destruct (unset (env (lit "SFTP_HOST"))) eqn:Eh; [discriminate |].
  destruct (unset (env (lit "SFTP_USER"))) eqn:Eu; [discriminate |].
  destruct (truthy (strip_ws (getenv env "SFTP_DIR" []))) eqn:Ed;
    [| discriminate].
  cbn [negb]. intros H. inversion H; subst. cbn.
  split; [now apply set_value |].
  split; [now apply set_value |].
  split; [intros E; rewrite E in Ed; discriminate |].
  split; apply strip_ws_trimmed.
Qed.

(** X19. A remote directory or a prefix given as white space only counts as
    not given: the directory is refused, the prefix is empty. *)
Theorem blank_values_count_as_unset (env : environ) (blank : str) :
  forallb is_space blank = true ->
  strip_ws blank = []
  /\ (env (lit "SFTP_DIR") = Some blank ->
      forall cfg, read_config env <> inl cfg)
  /\ (env (lit "ZIP_PREFIX") = Some blank ->
      forall cfg, read_config env = inl cfg -> zip_prefix cfg = []).
Proof.
  intros Hblank.
  assert (Hstrip : strip_ws blank = []).
  { unfold strip_ws.
    rewrite <- forallb_rev in Hblank.
    apply dropwhile_nil_all in Hblank. now rewrite Hblank. }
  split; [exact Hstrip |].
  unfold read_config, getenv. split; intros Henv cfg.
  - rewrite Henv, Hstrip.
    destruct (py_int _); [| discriminate].
    destruct (py_int _); [| discriminate].
    destruct (py_int _); [| discriminate].
    cbv zeta. cbn [host user dir truthy negb].
    destruct (unset _); [discriminate |].
    destruct (unset _); discriminate.
  - rewrite Henv, Hstrip.
    destruct (py_int _); [| discriminate].
    destruct (py_int _); [| discriminate].
    destruct (py_int _); [| discriminate].
    cbv zeta. cbn [host user dir].
    destruct (unset _); [discriminate |].
    destruct (unset _); [discriminate |].
    destruct (negb _); [discriminate |].
    intros H. inversion H; subst. reflexivity.
Qed.

End ConfigProperties.

Section RunProperties.

Lemma removed_app (a b : list step) : removed (a ++ b) = removed a ++ removed b.
Proof.
  induction a as [|x a IH]; [reflexivity |].
  destruct x as [| | | | | | | |e| | | |]; simpl; try exact IH.
  destruct e; simpl; [exact IH | now rewrite IH | exact IH].
Qed.

Lemma removed_mirror (acts : list action) : removed (map Mirror acts) = [].
Proof. induction acts as [|a acts IH]; [reflexivity | exact IH]. Qed.

Lemma removed_prune (t : list event) : removed (map Prune t) = attempts t.
Proof.
  induction t as [|e t IH]; [reflexivity |].
  destruct e; simpl; [exact IH | now rewrite IH | exact IH].
Qed.

(** The parts of a run whose configuration was accepted. *)
Lemma main_accepted (w : world) (cfg : config) :
  read_config (env w) = inl cfg ->
  main w
  = (fst (body w cfg)
     ++ (if snd (body w cfg) then [Print_error] else [])
     ++ fst (finally w),
     if snd (body w cfg) || snd (finally w) then 1 else 0).
Proof.
  intros H. unfold main. rewrite H.
  destruct (body w cfg), (finally w). reflexivity.
Qed.

Lemma removed_finally (w : world) : removed (fst (finally w)) = [].
Proof.
  unfold finally.
  destruct (mkdtemp w) as [td|];
    destruct (connect_ok w), (open_sftp_ok w); simpl; try reflexivity.
  destruct (truthy td && tmpdir_exists w); reflexivity.
Qed.

(** X20. Whatever a run calls [os.remove] on is a file of the output directory
    that passed the candidate test for the configured prefix; and a run
    removes anything only if [KEEP_BACKUPS] is positive, and only after
    the mirror returned and the archive was written. *)
Theorem run_removes_only_after_archiving (w : world) (p : str) :
  In p (removed (fst (main w))) ->
  exists cfg tmpdir acts,
    read_config (env w) = inl cfg
    /\ 0 < keep_backups cfg
    /\ mkdtemp w = Some tmpdir
    /\ download_sftp_dir (depth w) (session w) (dir cfg)
         (local_target tmpdir (dir cfg)) = (acts, None)
    /\ zip_ok w = true
    /\ exists f,
         In f (map fst (entries_of (output w)))
         /\ is_candidate (zip_prefix cfg) f = true
         /\ p = join (output_dir cfg) f.
Proof.
  destruct (read_config (env w)) as [cfg | e] eqn:Ecfg.
  2:{ unfold main. rewrite Ecfg. intros []. }
  rewrite (main_accepted w cfg Ecfg). cbn [fst].
  rewrite !removed_app, removed_finally, app_nil_r.
  assert (Herr : removed (if snd (body w cfg) then [Print_error] else [])
                 = []) by now destruct (snd (body w cfg)).
  rewrite Herr, app_nil_r. clear Herr.
  unfold body.
  destruct (connect_ok w); [| intros []].
  destruct (open_sftp_ok w); [| intros []]. cbn [negb].
  destruct (mkdtemp w) as [td|]; [| intros []].
  destruct (download_sftp_dir _ _ _ _) as [acts [err|]] eqn:Ewalk.
  { cbn [fst]. rewrite !removed_app, removed_mirror. intros []. }
  destruct (output_dir_ok w); cbn [negb fst].
  2:{ rewrite !removed_app, removed_mirror. intros []. }
  destruct (zip_ok w) eqn:Ezip; cbn [negb fst].
  2:{ rewrite !removed_app, removed_mirror. intros []. }
  rewrite !removed_app, removed_mirror.
  change (removed (Make_output_dir _ :: Write_archive _ :: map Prune ?t))
    with (removed (map Prune t)).
  rewrite removed_prune. cbn [removed app].
  intros Hin.
  apply attempted_paths_are_candidates in Hin as [Hkeep Hf].
  exists cfg, td, acts. auto 10.
Qed.

End RunProperties.

Section RunOutcome.

(** X21. A run that exits with status 0 has an accepted configuration, has
    mirrored the remote directory without a failed listing or fetch, and
    has written the archive; status 2 is the status of a rejected
    configuration and of nothing else, and no other status than 0, 1 and 2
    occurs. *)
Theorem exit_status_of_a_run (w : world) :
  (snd (main w) = 0 ->
   exists cfg tmpdir acts,
     read_config (env w) = inl cfg
     /\ mkdtemp w = Some tmpdir
     /\ download_sftp_dir (depth w) (session w) (dir cfg)
          (local_target tmpdir (dir cfg)) = (acts, None)
     /\ all_fetched (session w) acts
     /\ zip_ok w = true
     /\ In (Write_archive
              (zip_path (now w) (output_dir cfg) (zip_prefix cfg)))
           (fst (main w)))
  /\ (snd (main w) = 2 <-> exists e, read_config (env w) = inr e)
  /\ (snd (main w) = 0 \/ snd (main w) = 1 \/ snd (main w) = 2).
Proof.
  destruct (read_config (env w)) as [cfg | e] eqn:Ecfg.
  2:{ unfold main. rewrite Ecfg. cbn [snd].
      split; [discriminate |]. split; [| auto].
      split; [eauto | reflexivity]. }
  rewrite (main_accepted w cfg Ecfg). cbn [snd fst].
  split.
  - destruct (snd (body w cfg)) eqn:Eraised; [discriminate |].
    intros _. revert Eraised. unfold body.
    destruct (connect_ok w); [| discriminate].
    destruct (open_sftp_ok w); [| discriminate]. cbn [negb].
    destruct (mkdtemp w) as [td|]; [| discriminate].
    destruct (download_sftp_dir _ _ _ _) as [acts [err|]] eqn:Ewalk;
      [discriminate |].
    destruct (output_dir_ok w); [| discriminate].
    destruct (zip_ok w); [| discriminate]. cbn [negb snd fst].
    intros _. exists cfg, td, acts.
    split; [reflexivity |]. split; [reflexivity |].
    split; [exact Ewalk |].
    split; [exact (walk_all_fetched (session w) (depth w) _ _ _ Ewalk) |].
    split; [reflexivity |].
    apply in_or_app. left. apply in_or_app. right. right. now left.
  - split.
    + split.
      * destruct (snd (body w cfg) || snd (finally w)); discriminate.
      * intros [e He]. discriminate.
    + destruct (snd (body w cfg) || snd (finally w)); auto.
Qed.

Lemma mkdtemp_in_body (w : world) (cfg : config) (tmpdir : str) :
  In (Mkdtemp tmpdir) (fst (body w cfg)) ->
  connect_ok w = true /\ open_sftp_ok w = true /\ mkdtemp w = Some tmpdir.
Proof.
  unfold body.
  destruct (connect_ok w); cbn [negb].
  2:{ intros [H | []]. discriminate. }
  destruct (open_sftp_ok w); cbn [negb].
  2:{ intros [H | [H | []]]; discriminate. }
  destruct (mkdtemp w) as [td|].
  2:{ intros [H | [H | []]]; discriminate. }
  intros Hin.
  assert (Hbefore : forall acts rest,
            In (Mkdtemp tmpdir)
               (([Ssh_connect; Open_sftp; Mkdtemp td] ++ map Mirror acts)
                ++ rest) ->
            (forall s, In s rest -> s <> Mkdtemp tmpdir) ->
            td = tmpdir).
  { intros acts rest H Hrest.
    apply in_app_or in H as [H | H].
    - apply in_app_or in H as [H | H].
      + destruct H as [H | [H | [H | []]]]; try discriminate.
        now inversion H.
      + apply in_map_iff in H as (a & Ha & _). discriminate.
    - exfalso. exact (Hrest _ H eq_refl). }
  assert (td = tmpdir); [| subst; auto].
  destruct (download_sftp_dir _ _ _ _) as [acts [err|]].
  - cbn [fst] in Hin. apply (Hbefore _ _ Hin).
    intros s [<- | []]. discriminate.
  - destruct (output_dir_ok w); cbn [negb fst] in Hin.
    2:{ apply (Hbefore _ _ Hin). intros s [<- | []]. discriminate. }
    destruct (zip_ok w); cbn [negb fst] in Hin.
    + apply (Hbefore _ _ Hin).
      intros s [<- | [<- | Hs]]; [discriminate | discriminate |].
      apply in_map_iff in Hs as (e & <- & _). discriminate.
    + apply (Hbefore _ _ Hin).
      intros s [<- | [<- | []]]; discriminate.
Qed.

(** X22. A run that has made its temporary directory ends, on every path, by
    closing the two sessions and removing that directory, if the directory
    is still there. *)
Theorem temporary_directory_is_removed (w : world) (tmpdir : str) :
  In (Mkdtemp tmpdir) (fst (main w)) ->
  tmpdir <> [] -> tmpdir_exists w = true ->
  exists before,
    fst (main w) = before ++ [Sftp_close; Ssh_close; Rmtree tmpdir].
Proof.
  intros Hin Hne Hex.
  destruct (read_config (env w)) as [cfg | e] eqn:Ecfg.
  2:{ unfold main in Hin. rewrite Ecfg in Hin.
      destruct Hin as [H | []]. discriminate. }
  rewrite (main_accepted w cfg Ecfg) in *. cbn [fst] in *.
  assert (Hbody : In (Mkdtemp tmpdir) (fst (body w cfg))).
  { apply in_app_or in Hin as [H | H]; [exact H |].
    apply in_app_or in H as [H | H].
    - destruct (snd (body w cfg)); [destruct H as [H | []] |];
        [discriminate | contradiction].
    - exfalso. unfold finally in H.
      destruct (mkdtemp w) as [td|];
        destruct (connect_ok w), (open_sftp_ok w); cbn in H;
        try destruct (truthy td && tmpdir_exists w); cbn in H;
        repeat (destruct H as [H | H]; try discriminate); contradiction. }
  apply mkdtemp_in_body in Hbody as (Hc & Ho & Hm).
  unfold finally. rewrite Hc, Ho, Hm, Hex. cbn [andb].
  destruct tmpdir as [|c td]; [contradiction |]. cbn [truthy fst].
  eexists. rewrite !app_assoc. reflexivity.
Qed.

End RunOutcome.

(** * The newest archive *)
Section NewestArchive.

Variables (utcoffset : Z) (output_dir prefix : str).

Lemma NoDup_filter_names (p : str -> bool) (l : list str) :
  NoDup l -> NoDup (filter p l).
Proof. apply NoDup_filter. Qed.

(** X5. In a directory of distinct names, a candidate whose key is greater
    than the key of every other candidate is not among the files the pass
    calls [os.remove] on, whenever at least one archive is to be kept. *)
Theorem strictly_newest_is_kept (es : list (str * file_info)) (keep : Z)
    (f : str) :
  let key := file_key utcoffset (Listing es) output_dir prefix in
  NoDup (map fst es) -> plain_names es ->
  In f (candidates prefix (map fst es)) ->
  (forall g, In g (candidates prefix (map fst es)) -> g <> f ->
             key g < key f) ->
  0 < keep ->
  ~ In (join output_dir f)
       (attempts (out_trace
          (cleanup_old_backups utcoffset (Listing es) output_dir prefix
                               keep))).
Proof.
  intros key Hnd Hpl Hf Hnewest Hk Hin.
  rewrite cleanup_unfold in Hin by exact Hk. cbn [out_trace] in Hin.
  rewrite remove_loop_attempts in Hin.
  set (files := ranked utcoffset (Listing es) output_dir prefix (map fst es))
    in *.
  assert (Hperm : Permutation files (candidates prefix (map fst es)))
    by apply ranked_perm.
  assert (Hplain : forall g, In g files -> plain g = true).
  { intros g Hg. apply (Permutation_in _ Hperm) in Hg.
    apply filter_In in Hg as [Hg _].
    apply in_map_iff in Hg as (e & <- & He).
    unfold plain_names in Hpl. rewrite Forall_forall in Hpl. now apply Hpl. }
  assert (Hsplit : Retention.slice_to keep files
                   ++ Retention.slice_from keep files = files)
    by apply slices_split.
  apply in_map_iff in Hin as (g & Hg & Hdel).
  assert (Hgf : g = f).
  { apply (join_plain_injective output_dir); [| | exact Hg].
    - apply Hplain. rewrite <- Hsplit. apply in_or_app. now right.
    - apply Hplain. now apply (Permutation_in _ (Permutation_sym Hperm)). }
  subst g.
  assert (Hnodup : NoDup (Retention.slice_to keep files
                          ++ Retention.slice_from keep files)).
  { rewrite Hsplit.
    apply (Permutation_NoDup (Permutation_sym Hperm)).
    now apply NoDup_filter_names. }
  assert (Hsorted : StronglySorted (descending key)
                      (Retention.slice_to keep files
                       ++ Retention.slice_from keep files)).
  { rewrite Hsplit. apply list_sort_reverse_sorted. }
  apply sorted_app in Hsorted as (_ & _ & Hrank).
  destruct (Retention.slice_to keep files) as [|h kept] eqn:Ekept.
  - assert (Hlen : List.length (Retention.slice_to keep files)
                   = Nat.min (Z.to_nat keep) (List.length files)).
    { unfold Retention.slice_to.
      destruct (keep <? 0) eqn:E; [apply Z.ltb_lt in E; lia |].
      apply length_firstn. }
    rewrite Ekept in Hlen. cbn [List.length] in Hlen.
    assert (Hfiles : files = []).
    { destruct files; [reflexivity | simpl in Hlen; lia]. }
    rewrite Hfiles in Hdel. unfold Retention.slice_from in Hdel.
    destruct (keep <? 0); rewrite skipn_nil in Hdel; exact Hdel.
  - assert (Hh : In h files)
      by (rewrite <- Hsplit; now left).
    assert (Hhf : h <> f).
    { intros ->. cbn [app] in Hnodup. inversion Hnodup as [|? ? Hnot _].
      apply Hnot. apply in_or_app. now right. }
    pose proof (Hrank h f (or_introl eq_refl) Hdel) as Hle.
    unfold descending in Hle.
    pose proof (Hnewest h (Permutation_in _ Hperm Hh) Hhf). lia.
Qed.

(** Two fields of the same width before the same rest are the same. *)
Lemma app_same_length {T : Type} (a a' b b' : list T) :
  List.length a = List.length a' -> a ++ b = a' ++ b' -> a = a' /\ b = b'.
Proof.
  revert a'. induction a as [|x a IH]; intros [|x' a'] Hl H;
    try discriminate Hl.
  - now split.
  - cbn [app] in H. injection H as -> H. injection Hl as Hl.
    destruct (IH a' Hl H) as [-> ->]. now split.
Qed.

Lemma zfill_same (w : nat) (n m : Z) :
  (0 < w)%nat -> 0 <= n < 10 ^ Z.of_nat w -> 0 <= m < 10 ^ Z.of_nat w ->
  zfill w n = zfill w m -> n = m.
Proof.
  intros Hw Hn Hm H.
  pose proof (digits_val_zfill Hw Hn) as En.
  pose proof (digits_val_zfill Hw Hm) as Em.
  rewrite H in En. congruence.
Qed.

Lemma year_digits_bound (y : Z) :
  0 <= y <= 9999 -> 0 <= y < 10 ^ Z.of_nat (year_digits y).
Proof.
  intros Hy. unfold year_digits.
  destruct (y <? 10) eqn:E1; [apply Z.ltb_lt in E1; simpl; lia |].
  destruct (y <? 100) eqn:E2; [apply Z.ltb_lt in E2; simpl; lia |].
  destruct (y <? 1000) eqn:E3; [apply Z.ltb_lt in E3; simpl; lia |].
  simpl. lia.
Qed.

(** The stamp tells the date and time it was written from, whatever the
    number of digits of the year. *)
Lemma strftime_injective (a b : datetime) :
  valid a = true -> valid b = true -> strftime a = strftime b -> a = b.
Proof.
  intros Ha Hb H. split_valid Ha. split_valid Hb.
  pose proof (days_in_month_le_31 (year a) (month a)).
  pose proof (days_in_month_le_31 (year b) (month b)).
  assert (Hlen : year_digits (year a) = year_digits (year b)).
  { apply (f_equal (@List.length ascii)) in H. unfold strftime in H.
    rewrite !length_app, !zfill_length in H. lia. }
  unfold strftime in H. rewrite <- Hlen in H.
  apply app_same_length in H as [Hy H]; [| now rewrite !zfill_length].
  apply app_same_length in H as [_ H]; [| reflexivity].
  apply app_same_length in H as [Hmo H]; [| now rewrite !zfill_length].
  apply app_same_length in H as [_ H]; [| reflexivity].
  apply app_same_length in H as [Hd H]; [| now rewrite !zfill_length].
  apply app_same_length in H as [_ H]; [| reflexivity].
  apply app_same_length in H as [Hh H]; [| now rewrite !zfill_length].
  apply app_same_length in H as [_ H]; [| reflexivity].
  apply app_same_length in H as [Hmi H]; [| now rewrite !zfill_length].
  apply app_same_length in H as [_ H]; [| reflexivity].
  apply app_same_length in H as [Hs H]; [| now rewrite !zfill_length].
  apply app_same_length in H as [_ H]; [| reflexivity].
  apply app_same_length in H as [Hus _]; [| now rewrite !zfill_length].
  pose proof (@year_digits_bound (year a)) as Bya.
  pose proof (@year_digits_bound (year b)) as Byb.
  rewrite <- Hlen in Byb.
  assert (Hw : (0 < year_digits (year a))%nat).
  { unfold year_digits. repeat destruct (_ <? _); lia. }
  apply zfill_same in Hy; [| exact Hw | lia | lia].
  apply zfill_same in Hmo; [| lia | simpl; lia | simpl; lia].
  apply zfill_same in Hd; [| lia | simpl; lia | simpl; lia].
  apply zfill_same in Hh; [| lia | simpl; lia | simpl; lia].
  apply zfill_same in Hmi; [| lia | simpl; lia | simpl; lia].
  apply zfill_same in Hs; [| lia | simpl; lia | simpl; lia].
  apply zfill_same in Hus; [| lia | simpl; lia | simpl; lia].
  destruct a, b; simpl in *. congruence.
Qed.

(** X10. Two archives made at different times get different names. *)
Theorem archive_names_differ (a b : datetime) :
  valid a = true -> valid b = true ->
  zip_name a prefix = zip_name b prefix -> a = b.
Proof.
  intros Ha Hb Hname.
  apply strftime_injective; [exact Ha | exact Hb |].
  rewrite <- (stamp_text_zip_name a prefix).
  rewrite <- (stamp_text_zip_name b prefix).
  now rewrite Hname.
Qed.

End NewestArchive.

(** * Where a run writes *)
Section RunWrites.

Lemma is_under_self_more (root p : str) (more : list str) :
  resolve p = resolve root ++ more -> is_under root p = true.
Proof. intros H. unfold is_under. rewrite H. apply is_prefix_app. Qed.

Lemma resolve_dot (a : str) : resolve (a ++ sep :: ["."%char]) = resolve a.
Proof.
  unfold resolve. rewrite split_at_sep.
  change (PosixPath.split ["."%char]) with [["."%char]].
  rewrite fold_left_app. reflexivity.
Qed.

(** A name without ['/'] other than [".."] joined to a directory leads to
    the directory or below it. *)
Lemma plain_target_under (tmpdir name : str) :
  plain name = true -> name <> lit ".." ->
  is_under tmpdir (join tmpdir name) = true.
Proof.
  intros Hpl Hup.
  destruct (is_dot_name name) eqn:Edot.
  - unfold is_dot_name in Edot. apply orb_true_iff in Edot as [E | E];
      apply eqb_eq in E; [subst name | contradiction].
    change (lit ".") with ["."%char].
    unfold join. change (startswith ["."%char] [sep]) with false. cbv iota.
    destruct (negb (truthy tmpdir) || endswith tmpdir [sep]) eqn:E.
    + apply orb_true_iff in E as [E | E].
      * destruct tmpdir; [reflexivity | discriminate].
      * apply endswith_split in E as [t ->].
        apply (is_under_self_more _ _ []).
        rewrite <- app_assoc. cbn [app].
        now rewrite resolve_dot, resolve_trailing_sep, app_nil_r.
    + apply (is_under_self_more _ _ []).
      now rewrite resolve_dot, app_nil_r.
  - destruct name as [|c name].
    + unfold join. cbn [startswith].
      destruct (negb (truthy tmpdir) || endswith tmpdir [sep]).
      * rewrite app_nil_r. apply (is_under_self_more _ _ []).
        now rewrite app_nil_r.
      * apply (is_under_self_more _ _ []).
        now rewrite resolve_trailing_sep, app_nil_r.
    + apply (is_under_self_more _ _ [c :: name]).
      apply resolve_join_plain; [exact Hpl | discriminate | exact Edot].
Qed.

Lemma is_under_self (root : str) : is_under root root = true.
Proof. apply (is_under_self_more _ _ []). now rewrite app_nil_r. Qed.

(** The steps of a run that make a directory or write a file: making the
    temporary directory, the actions of the mirror, making the output
    directory and writing the archive there. *)
Lemma writing_steps_of_main (w : world) (cfg : config) (s : step) :
  read_config (env w) = inl cfg ->
  In s (fst (main w)) ->
  (made_dirs s = [] /\ written_files s = [])
  \/ (exists tmpdir,
        mkdtemp w = Some tmpdir
        /\ (s = Mkdtemp tmpdir
            \/ exists a,
                 s = Mirror a
                 /\ In a (fst (download_sftp_dir (depth w) (session w)
                                 (dir cfg)
                                 (local_target tmpdir (dir cfg))))))
  \/ s = Make_output_dir (output_dir cfg)
  \/ s = Write_archive (zip_path (now w) (output_dir cfg) (zip_prefix cfg)).
Proof.
  intros Hcfg Hin. rewrite (main_accepted w cfg Hcfg) in Hin.
  cbn [fst] in Hin.
  assert (Hlast : forall x, In x (fst (finally w)) ->
                    made_dirs x = [] /\ written_files x = []).
  { intros x Hx. unfold finally in Hx.
    destruct (mkdtemp w) as [td|];
      destruct (connect_ok w), (open_sftp_ok w); cbn in Hx;
      try destruct (truthy td && tmpdir_exists w); cbn in Hx;
      repeat (destruct Hx as [<- | Hx]; [now split |]); contradiction. }
  apply in_app_or in Hin as [Hin | Hin].
  2:{ left. apply in_app_or in Hin as [Hin | Hin]; [| now apply Hlast].
      destruct (snd (body w cfg)); [| contradiction].
      destruct Hin as [<- | []]. now split. }
  clear Hlast. unfold body in Hin.
  destruct (connect_ok w); cbn [negb] in Hin.
  2:{ left. destruct Hin as [<- | []]. now split. }
  destruct (open_sftp_ok w); cbn [negb] in Hin.
  2:{ left. destruct Hin as [<- | [<- | []]]; now split. }
  destruct (mkdtemp w) as [td|].
  2:{ left. destruct Hin as [<- | [<- | []]]; now split. }
  assert (Hbefore : forall x acts,
            In x ([Ssh_connect; Open_sftp; Mkdtemp td] ++ map Mirror acts) ->
            (made_dirs x = [] /\ written_files x = [])
            \/ x = Mkdtemp td \/ exists a, x = Mirror a /\ In a acts).
  { intros x acts Hx. apply in_app_or in Hx as [Hx | Hx].
    - destruct Hx as [<- | [<- | [<- | []]]];
        [left; now split | left; now split | right; now left].
    - apply in_map_iff in Hx as (a & <- & Ha). right. right. now exists a. }
  destruct (download_sftp_dir _ _ _ _) as [acts err] eqn:Ewalk.
  assert (Hmirror : forall x,
            In x ([Ssh_connect; Open_sftp; Mkdtemp td] ++ map Mirror acts) ->
            (made_dirs x = [] /\ written_files x = [])
            \/ (exists tmpdir,
                  Some td = Some tmpdir
                  /\ (x = Mkdtemp tmpdir
                      \/ exists a,
                           x = Mirror a
                           /\ In a (fst (download_sftp_dir (depth w)
                                           (session w) (dir cfg)
                                           (local_target tmpdir
                                              (dir cfg))))))).
  { intros x Hx. destruct (Hbefore x acts Hx) as [H | H]; [now left |].
    right. exists td. split; [reflexivity |]. rewrite Ewalk. exact H. }
  clear Hbefore.
  assert (Hgoal : forall x rest,
            In x (([Ssh_connect; Open_sftp; Mkdtemp td] ++ map Mirror acts)
                  ++ rest) ->
            (forall y, In y rest ->
               (made_dirs y = [] /\ written_files y = [])
               \/ y = Make_output_dir (output_dir cfg)
               \/ y = Write_archive (zip_path (now w) (output_dir cfg)
                                              (zip_prefix cfg))) ->
            (made_dirs x = [] /\ written_files x = [])
            \/ (exists tmpdir,
                  Some td = Some tmpdir
                  /\ (x = Mkdtemp tmpdir
                      \/ exists a,
                           x = Mirror a
                           /\ In a (fst (download_sftp_dir (depth w)
                                           (session w) (dir cfg)
                                           (local_target tmpdir
                                              (dir cfg))))))
            \/ x = Make_output_dir (output_dir cfg)
            \/ x = Write_archive (zip_path (now w) (output_dir cfg)
                                           (zip_prefix cfg))).
  { intros x rest Hx Hrest. apply in_app_or in Hx as [Hx | Hx].
    - destruct (Hmirror x Hx) as [H | H]; [now left | right; now left].
    - destruct (Hrest x Hx) as [H | H]; [now left | right; now right]. }
  destruct err as [err|].
  { cbn [fst] in Hin. apply (Hgoal _ _ Hin).
    intros y [<- | []]. left. now split. }
  destruct (output_dir_ok w); cbn [negb fst] in Hin.
  2:{ apply (Hgoal _ _ Hin). intros y [<- | []]. right. now left. }
  destruct (zip_ok w); cbn [negb fst] in Hin.
  - apply (Hgoal _ _ Hin).
    intros y [<- | [<- | Hy]]; [right; now left | right; now right |].
    apply in_map_iff in Hy as (e & <- & _). left. now split.
  - apply (Hgoal _ _ Hin).
    intros y [<- | [<- | []]]; [right; now left | right; now right].
Qed.

(** X23. When the server names files as a file system does and the remote
    directory is not written so that its last component is [".."], a run
    makes directories and writes files in two places only: every directory
    it gets from [tempfile.mkdtemp] or hands to [os.makedirs] is the
    temporary directory of the run, a path under it, or the configured
    output directory; every local file it writes is fetched to a path
    under the temporary directory or is the archive, in the output
    directory. *)
Theorem run_writes_inside_the_temporary_directory (w : world) (cfg : config)
    (tmpdir : str) (s : step) (p : str) :
  read_config (env w) = inl cfg -> mkdtemp w = Some tmpdir ->
  benign (session w) -> target_name (dir cfg) <> lit ".." ->
  In s (fst (main w)) ->
  (In p (made_dirs s) ->
   is_under tmpdir p = true \/ p = output_dir cfg)
  /\ (In p (written_files s) ->
      is_under tmpdir p = true
      \/ p = join (output_dir cfg) (zip_name (now w) (zip_prefix cfg))).
Proof.
  intros Hcfg Htmp Hben Hup Hin.
  assert (Hwalk : forall a q,
            In a (fst (download_sftp_dir (depth w) (session w) (dir cfg)
                         (local_target tmpdir (dir cfg)))) ->
            In q (local_paths a) -> is_under tmpdir q = true).
  { intros a q Ha Hq.
    refine (walk_stays_under (session w) tmpdir (depth w) Hben _ _ _ a q
              Ha Hq).
    unfold local_target. apply plain_target_under; [| exact Hup].
    apply (target_name_plain (dir cfg)). }
  destruct (writing_steps_of_main w cfg s Hcfg Hin)
    as [[Hd Hf] | [(td & Htd & Hs) | [-> | ->]]].
  - rewrite Hd, Hf. split; intros [].
  - assert (td = tmpdir) by congruence. subst td.
    destruct Hs as [-> | (a & -> & Ha)].
    + split; [| intros []]. intros [<- | []]. left. apply is_under_self.
    + destruct a as [q | rp | rp q]; cbn [made_dirs written_files].
      * split; [| intros []]. intros [<- | []]. left.
        apply (Hwalk _ _ Ha). now left.
      * split; intros [].
      * split; [intros [] |]. intros [<- | []]. left.
        apply (Hwalk _ _ Ha). now left.
  - split; [| intros []]. intros [<- | []]. now right.
  - split; [intros [] |]. intros [<- | []]. now right.
Qed.

End RunWrites.

(** * The further properties on concrete inputs *)

Import Examples.

Section FurtherOnConcreteInputs.

Lemma three_names_distinct : NoDup (map fst three_archives).
Proof.
  repeat constructor; simpl; intuition discriminate.
Qed.

Lemma three_names_plain : plain_names three_archives.
Proof. repeat constructor. Qed.

Lemma keep_three_of_three :
  cleanup_old_backups 0 (Listing three_archives) out (lit "a") 3
  = mk_outcome Returns (Listing three_archives) [].
Proof.
  apply (keep_covers_all_candidates 0 out (lit "a") three_archives 3).
  vm_compute. discriminate.
Defined.

Lemma january_is_a_candidate :
  exists f,
    In f (map fst three_archives)
    /\ is_candidate (lit "a") f = true
    /\ join out january = join out f.
Proof.
  apply (only_candidates_are_removed 0 out (lit "a")
           (Listing three_archives) 1 (join out january)).
  vm_compute. left. reflexivity.
Defined.

Lemma june_is_what_stays :
  out_dir (cleanup_old_backups 0 (Listing three_archives) out (lit "a") 1)
  = Listing [ (june, mk_info (Some 1717200005000000) true) ].
Proof.
  rewrite (directory_after_the_pass 0 out (lit "a") three_archives 1
             three_names_distinct three_names_plain); [reflexivity | lia].
Defined.

Lemma second_pass_on_three_archives :
  let o := cleanup_old_backups 0 (Listing three_archives) out (lit "a") 1 in
  cleanup_old_backups 0 (out_dir o) out (lit "a") 1
  = mk_outcome Returns (out_dir o) [].
Proof.
  apply (second_pass_removes_nothing 0 out (lit "a") three_archives 1
           three_names_distinct three_names_plain).
  repeat constructor.
Defined.

Lemma new_year_stamp_round_trip :
  strptime (stamp_text (lit "a") (zip_name new_year (lit "a")))
  = Some new_year.
Proof.
  apply (stamp_fields_round_trip (lit "a") new_year);
    [reflexivity | simpl; lia].
Defined.


Lemma friendly_walk_fetched_everything :
  all_fetched friendly
    (fst (download_sftp_dir 5 friendly (lit "/data") (lit "/tmp/x/data"))).
Proof.
  apply (returned_walk_fetched_everything friendly 5 (lit "/data")
           (lit "/tmp/x/data")).
  reflexivity.
Defined.

Lemma friendly_walk_at_any_greater_depth :
  download_sftp_dir (3 + 40) friendly (lit "/data") (lit "/tmp/x/data")
  = download_sftp_dir 3 friendly (lit "/data") (lit "/tmp/x/data").
Proof.
  apply (deeper_limit_same_walk friendly 3 40 (lit "/data")
           (lit "/tmp/x/data")).
  - vm_compute. reflexivity.
  - vm_compute. discriminate.
Defined.

Lemma friendly_walk_mirrored_sub :
  In (Makedirs (lit "/tmp/x/data/sub"))
     (fst (download_sftp_dir 5 friendly (lit "/data") (lit "/tmp/x/data"))).
Proof.
  apply (returned_walk_mirrored_every_entry friendly 5 (lit "/data")
           (lit "/tmp/x/data") _
           [ mk_entry (lit ".") 16877; mk_entry (lit "..") 16877;
             mk_entry (lit "f1.txt") 33188; mk_entry (lit "sub") 16877 ]
           (mk_entry (lit "sub") 16877)).
  - reflexivity.
  - reflexivity.
  - simpl. auto.
  - reflexivity.
Defined.

Lemma friendly_is_benign : benign friendly.
Proof.
  intros dir entries e Hl He. simpl in Hl. unfold friendly_listing in Hl.
  destruct (PyStr.eqb dir (lit "/data")).
  - inversion Hl; subst.
    destruct He as [<- | [<- | [<- | [<- | []]]]];
      [left | left | right | right]; try reflexivity;
      (split; [reflexivity | discriminate]).
  - destruct (PyStr.eqb dir (lit "/data/sub")); [| discriminate].
    inversion Hl; subst.
    destruct He as [<- | []]. right. split; [reflexivity | discriminate].
Qed.


Lemma mirrored_tree_is_good : good_tree mirrored_tree.
Proof.
  simpl. unfold good_name.
  repeat split; try reflexivity; try discriminate; repeat constructor;
    try reflexivity; discriminate.
Qed.

Lemma entries_of_the_mirrored_tree :
  zip_writes (lit "/home/backup") tmp mirrored_tree
  = Some [ (lit "/tmp/sftp_download_x/data/f1.txt", lit "data/f1.txt");
           (lit "/tmp/sftp_download_x/data/sub/f2.txt",
            lit "data/sub/f2.txt") ].
Proof.
  rewrite (archive_entries_are_relative_paths (lit "/home/backup") tmp
             eq_refl mirrored_tree mirrored_tree_is_good).
  reflexivity.
Defined.

End FurtherOnConcreteInputs.

Section RunsOnConcreteInputs.

Lemma settings_are_accepted :
  exists cfg,
    read_config settings = inl cfg
    /\ dir cfg = lit "/data" /\ zip_prefix cfg = lit "a"
    /\ trimmed (dir cfg) /\ trimmed (zip_prefix cfg).
Proof.
  destruct (read_config settings) as [cfg | e] eqn:E;
    [| vm_compute in E; discriminate].
  pose proof (accepted_config_is_complete settings cfg E)
    as (_ & _ & _ & Hdir & Hprefix).
  exists cfg. vm_compute in E. inversion E; subst.
  repeat split; reflexivity || assumption.
Defined.

Lemma blank_prefix_is_empty :
  strip_ws (lit "   ") = [].
Proof.
  apply (blank_values_count_as_unset settings (lit "   ")). reflexivity.
Defined.

Lemma good_run_removes_after_archiving :
  exists cfg tmpdir acts,
    read_config (env good_run) = inl cfg
    /\ 0 < keep_backups cfg
    /\ mkdtemp good_run = Some tmpdir
    /\ download_sftp_dir (depth good_run) (session good_run) (dir cfg)
         (local_target tmpdir (dir cfg)) = (acts, None)
    /\ zip_ok good_run = true
    /\ exists f,
         In f (map fst (entries_of (output good_run)))
         /\ is_candidate (zip_prefix cfg) f = true
         /\ join out january = join (output_dir cfg) f.
Proof.
  apply (run_removes_only_after_archiving good_run (join out january)).
  vm_compute. left. reflexivity.
Defined.

Lemma good_run_removes_its_directory :
  exists before,
    fst (main good_run) = before ++ [Sftp_close; Ssh_close; Rmtree tmp].
Proof.
  apply (temporary_directory_is_removed good_run tmp).
  - vm_compute. auto.
  - discriminate.
  - reflexivity.
Defined.

Lemma good_run_writes_inside_tmp :
  is_under tmp (lit "/tmp/sftp_download_x/data/sub/f2.txt") = true
  \/ lit "/tmp/sftp_download_x/data/sub/f2.txt"
     = lit "/backups/a_2024-06-01T00-00-00.000000Z.zip".
Proof.
  destruct (read_config (env good_run)) as [cfg | e] eqn:E;
    [| vm_compute in E; discriminate].
  assert (Hname : join (output_dir cfg)
                       (zip_name (now good_run) (zip_prefix cfg))
                  = lit "/backups/a_2024-06-01T00-00-00.000000Z.zip")
    by (vm_compute in E; inversion E; subst; reflexivity).
  rewrite <- Hname.
  apply (run_writes_inside_the_temporary_directory good_run cfg tmp
           (Mirror (Get (lit "/data/sub/f2.txt")
                        (lit "/tmp/sftp_download_x/data/sub/f2.txt")))).
  - exact E.
  - reflexivity.
  - exact friendly_is_benign.
  - vm_compute in E. inversion E; subst. vm_compute. discriminate.
  - vm_compute. auto 20.
  - simpl. auto.
Defined.

Lemma june_is_kept :
  ~ In (join out june)
       (attempts (out_trace
          (cleanup_old_backups 0 (Listing three_archives) out (lit "a") 1))).
Proof.
  apply (strictly_newest_is_kept 0 out (lit "a") three_archives 1 june
           three_names_distinct three_names_plain).
  - vm_compute. auto.
  - intros g Hg Hne. vm_compute in Hg.
    destruct Hg as [<- | [<- | [<- | []]]];
      [reflexivity | contradiction | reflexivity].
  - lia.
Defined.

Lemma same_name_same_instant :
  mk_datetime 2024 6 1 0 0 0 0 = mid_year.
Proof.
  apply (archive_names_differ (lit "a")); reflexivity.
Defined.

End RunsOnConcreteInputs.
